(** * go-env-validator: a shallow embedding of the validation engine

    The development follows the Go sources:
    - [types.go]: [Kind], [Field], [FieldSchema], [ValidationError],
      [ValidationErrors], [Result] and its accessors;
    - [validator.go]: [New], [ValidateMap], [parseValue], [DurationResult];
    - [schema.go]: [Schema].

    Go strings are byte sequences and are modelled by [string]; [int64] and
    [time.Duration] values are integers in [Z]; a [float64] is its 64-bit
    pattern.  Go maps are [gmap]s.  A slice that may be [nil] is an
    [option (list _)]. *)

From Stdlib Require Import ZArith Ascii String List Lia.
From stdpp Require Import base option list gmap strings pretty fin_maps.

Local Open Scope string_scope.

#[local] Set Warnings "-clear-no-such-hyp".
#[local] Set Warnings "-notation-incompatible-prefix".

(** ** Library functions used by the package

    [strings.TrimSpace], [strings.ToLower], the [%q] verb of [fmt],
    [strconv.ParseInt], [strconv.ParseFloat], [url.ParseRequestURI] and
    [time.ParseDuration] belong to the Go standard library, not to the
    package.  The engine is parameterised over them. *)

(** The two fields of [url.URL] that [parseValue] inspects. *)
Record URL := mkURL { Scheme : string; Host : string }.

Class GoLib := {
  (** [strings.TrimSpace] *)
  TrimSpace : string -> string;
  (** [strings.ToLower] *)
  ToLower : string -> string;
  (** the [%q] verb of [fmt.Sprintf] applied to a string *)
  Quote : string -> string;
  (** [strconv.ParseInt(s, 10, 64)]; [None] when [err != nil] *)
  ParseInt : string -> option Z;
  (** [strconv.ParseFloat(s, 64)], as the bit pattern of the result *)
  ParseFloat : string -> option Z;
  (** [url.ParseRequestURI] *)
  ParseRequestURI : string -> option URL;
  (** [time.ParseDuration], in nanoseconds *)
  ParseDuration : string -> option Z
}.

(** What the standard library documents for the empty string. *)
Class GoLibLaws (L : GoLib) : Prop := {
  TrimSpace_empty : TrimSpace "" = "";
  ToLower_empty : ToLower "" = "";
  ParseInt_empty : ParseInt "" = None;
  ParseFloat_empty : ParseFloat "" = None;
  ParseRequestURI_empty : ParseRequestURI "" = None;
  ParseDuration_empty : ParseDuration "" = None
}.

(** ** types.go *)

Definition Kind := string.

Definition KindString : Kind := "string".
Definition KindInteger : Kind := "integer".
Definition KindFloat : Kind := "float".
Definition KindBoolean : Kind := "boolean".
Definition KindURL : Kind := "url".
Definition KindDuration : Kind := "duration".

Record Field := mkField {
  Key : string;
  FKind : Kind;
  Required : bool;
  Default : string;
  Description : string;
  AllowedValues : option (list string)
}.

Record FieldSchema := mkFieldSchema {
  SKey : string;
  SKind : string;
  SRequired : bool;
  SDefault : string;
  SDescription : string;
  SAllowedValues : option (list string)
}.

Record ValidationError := mkValidationError {
  EKey : string;
  Reason : string
}.

Definition ValidationErrors := list ValidationError.

(** The dynamic types that [parseValue] stores in a [map[string]any]. *)
Inductive Value :=
| VString (s : string)
| VInt64 (n : Z)
| VFloat64 (bits : Z)
| VBool (b : bool)
| VDuration (ns : Z).

Record Result := mkResult { values : gmap string Value }.

(** A call that may panic. *)
Inductive outcome (A : Type) :=
| Returns (a : A)
| Panics (msg : string).
Arguments Returns {A} a.
Arguments Panics {A} msg.

(** Elements of a possibly-nil slice; [len] of a nil slice is 0. *)
Definition elems {A} (s : option (list A)) : list A := default [] s.

(** The two-value map index [v, ok := m[k]]: the zero value when absent. *)
Definition index2 {A} (zero : A) (m : gmap string A) (k : string) : A * bool :=
  match m !! k with
  | Some v => (v, true)
  | None => (zero, false)
  end.

(** The line feed of the Go escape [\n]. *)
Definition nl : string := String (ascii_of_nat 10) EmptyString.

Section Engine.
Context {L : GoLib}.

(** [ValidationError.Error] (pointer receiver) *)
Definition ValidationError_Error (e : ValidationError) : string :=
  "env-validator: field " ++ Quote (EKey e) ++ ": " ++ Reason e.

(** [ValidationErrors.Error]: [out] is extended once per element. *)
Definition ValidationErrors_Error (ve : ValidationErrors) : string :=
  if (length ve =? 0)%nat then ""
  else
    let out := pretty (length ve) ++ " environment variable validation error(s):" ++ nl in
    fold_left (fun out e => out ++ ("  - " ++ ValidationError_Error e ++ nl)) ve out.

Definition not_declared (key : string) : string :=
  "env-validator: key " ++ Quote key ++ " was not declared in the validator".

(** [Result.String] *)
Definition Result_String (r : Result) (key : string) : outcome string :=
  match values r !! key with
  | None => Panics (not_declared key)
  | Some v =>
      match v with
      | VString s => Returns s
      | _ => Panics ("env-validator: key " ++ Quote key ++ " is not a string field")
      end
  end.

(** [Result.Integer] *)
Definition Result_Integer (r : Result) (key : string) : outcome Z :=
  match values r !! key with
  | None => Panics (not_declared key)
  | Some v =>
      match v with
      | VInt64 n => Returns n
      | _ => Panics ("env-validator: key " ++ Quote key ++ " is not an integer field")
      end
  end.

(** [Result.Float] *)
Definition Result_Float (r : Result) (key : string) : outcome Z :=
  match values r !! key with
  | None => Panics (not_declared key)
  | Some v =>
      match v with
      | VFloat64 f => Returns f
      | _ => Panics ("env-validator: key " ++ Quote key ++ " is not a float field")
      end
  end.

(** [Result.Boolean] *)
Definition Result_Boolean (r : Result) (key : string) : outcome bool :=
  match values r !! key with
  | None => Panics (not_declared key)
  | Some v =>
      match v with
      | VBool b => Returns b
      | _ => Panics ("env-validator: key " ++ Quote key ++ " is not a boolean field")
      end
  end.

(** [Result.Duration]: returns the stored [interface{}] as it is. *)
Definition Result_Duration (r : Result) (key : string) : outcome Value :=
  match values r !! key with
  | None => Panics (not_declared key)
  | Some v => Returns v
  end.

(** [Result.Raw]; the zero [any] is [nil], hence the [option]. *)
Definition Result_Raw (r : Result) (key : string) : option Value * bool :=
  match values r !! key with
  | Some v => (Some v, true)
  | None => (None, false)
  end.

(** [DurationResult] (validator.go) *)
Definition DurationResult (r : Result) (key : string) : outcome Z :=
  let '(v, ok) := Result_Raw r key in
  if negb ok then Panics (not_declared key)
  else
    match v with
    | Some (VDuration d) => Returns d
    | _ => Panics ("env-validator: key " ++ Quote key ++ " is not a duration field")
    end.

(** ** validator.go *)

Definition parse_error (key what raw suffix : string) : ValidationError :=
  {| EKey := key; Reason := what ++ Quote raw ++ suffix |}.

(** [parseValue]: the [switch kind] compares the kind with each constant in
    turn. *)
Definition parseValue (key : string) (kind : Kind) (raw : string)
  : Value + ValidationError :=
  if String.eqb kind KindString then inl (VString raw)
  else if String.eqb kind KindInteger then
    match ParseInt (TrimSpace raw) with
    | None => inr (parse_error key "cannot parse " raw " as an integer")
    | Some n => inl (VInt64 n)
    end
  else if String.eqb kind KindFloat then
    match ParseFloat (TrimSpace raw) with
    | None => inr (parse_error key "cannot parse " raw " as a float")
    | Some f => inl (VFloat64 f)
    end
  else if String.eqb kind KindBoolean then
    let normalized := ToLower (TrimSpace raw) in
    if String.eqb normalized "true" || String.eqb normalized "1"
       || String.eqb normalized "yes" then inl (VBool true)
    else if String.eqb normalized "false" || String.eqb normalized "0"
       || String.eqb normalized "no" then inl (VBool false)
    else inr (parse_error key "cannot parse " raw
                " as a boolean; accepted values are true, false, 1, 0, yes, no")
  else if String.eqb kind KindURL then
    let trimmed := TrimSpace raw in
    match ParseRequestURI trimmed with
    | None =>
        inr (parse_error key "cannot parse " raw
               " as an absolute URL with scheme and host")
    | Some u =>
        if String.eqb (Scheme u) "" || String.eqb (Host u) "" then
          inr (parse_error key "cannot parse " raw
                 " as an absolute URL with scheme and host")
        else inl (VString trimmed)
    end
  else if String.eqb kind KindDuration then
    match ParseDuration (TrimSpace raw) with
    | None =>
        inr (parse_error key "cannot parse " raw
               " as a duration; use Go duration syntax such as 5s, 1m30s, or 2h")
    | Some d => inl (VDuration d)
    end
  else inr (parse_error key "unknown kind " kind "").

(** The [found] loop over [f.AllowedValues]. *)
Fixpoint found_in (raw : string) (allowed : list string) : bool :=
  match allowed with
  | [] => false
  | a :: rest => if String.eqb raw a then true else found_in raw rest
  end.

(** The part of the loop body that follows the resolution of [raw]:
    the allowed-values check and the call of [parseValue]. *)
Definition check_and_parse (f : Field) (kind : Kind) (raw : string)
  : Value + ValidationError :=
  if (0 <? length (elems (AllowedValues f)))%nat
     && negb (found_in raw (elems (AllowedValues f)))
  then
    inr {| EKey := Key f;
           Reason := "value " ++ Quote raw ++ " is not one of the allowed values: "
                       ++ String.concat ", " (elems (AllowedValues f)) |}
  else parseValue (Key f) kind raw.

Definition resolve_kind (f : Field) : Kind :=
  if String.eqb (FKind f) "" then KindString else FKind f.

(** The body of the loop of [ValidateMap] for one field, after the
    cancellation check: [inr e] is [errs = append(errs, e); continue] and
    [inl v] reaches [values[f.Key] = v]. *)
Definition evalField (env : gmap string string) (f : Field)
  : Value + ValidationError :=
  let kind := resolve_kind f in
  let '(raw, present) := index2 "" env (Key f) in
  if negb present || String.eqb raw "" then
    if Required f && String.eqb (Default f) "" then
      inr {| EKey := Key f; Reason := "required variable is missing or empty" |}
    else check_and_parse f kind (Default f)
  else check_and_parse f kind raw.

End Engine.

(** ** The cancellation signal

    [ValidateMap] polls [ctx.Done()] once per loop iteration.  A context is
    described by the first poll of the call at which its [Done] channel is
    found closed ([None]: not before the call returns; once closed, a
    channel stays closed) and by the error that [ctx.Err()] then returns. *)

Inductive CtxErr := Canceled | DeadlineExceeded.

Record Context := mkContext { doneFrom : option nat; ctxErr : CtxErr }.

Definition Done (ctx : Context) (poll : nat) : bool :=
  match doneFrom ctx with
  | Some n => (n <=? poll)%nat
  | None => false
  end.

(** [context.Background()] is never cancelled. *)
Definition Background : Context := {| doneFrom := None; ctxErr := Canceled |}.

(** A context whose [cancel] function ran before the call. *)
Definition Cancelled : Context := {| doneFrom := Some 0%nat; ctxErr := Canceled |}.

(** The dynamic types of the [error] that [ValidateMap] returns. *)
Inductive error :=
| EValidation (ve : ValidationErrors)
| EContext (c : CtxErr).

Record Validator := mkValidator { fields : list Field }.

(** [New] *)
Definition New (fs : list Field) : Validator := {| fields := fs |}.

(** ** schema.go *)

Definition zeroFieldSchema : FieldSchema :=
  {| SKey := ""; SKind := ""; SRequired := false; SDefault := "";
     SDescription := ""; SAllowedValues := None |}.

(** [out[i] = x]: an index out of range is a run-time panic. *)
Definition store_at {A} (i : nat) (x : A) (out : list A) : option (list A) :=
  if (i <? length out)%nat then Some (<[i := x]> out) else None.

(** The descriptor built in one iteration of the loop of [Schema]. *)
Definition describe (f : Field) : FieldSchema :=
  let kind := if String.eqb (FKind f) "" then KindString else FKind f in
  let allowed :=
    match AllowedValues f with
    | None => Some []
    | Some a => Some a
    end in
  {| SKey := Key f; SKind := kind; SRequired := Required f;
     SDefault := Default f; SDescription := Description f;
     SAllowedValues := allowed |}.

(** [for i, f := range v.fields { ... out[i] = FieldSchema{...} }] *)
Fixpoint schemaLoop (i : nat) (fs : list Field) (out : list FieldSchema)
  : outcome (list FieldSchema) :=
  match fs with
  | [] => Returns out
  | f :: rest =>
      match store_at i (describe f) out with
      | None => Panics "index out of range"
      | Some out' => schemaLoop (S i) rest out'
      end
  end.

(** [Schema] *)
Definition Schema (v : Validator) : outcome (list FieldSchema) :=
  let out := replicate (length (fields v)) zeroFieldSchema in
  schemaLoop 0 (fields v) out.

Section Validate.
Context {L : GoLib}.

(** The loop of [ValidateMap]: [poll] counts the iterations, [errs] and
    [vals] are the local [errs] and [values].  [inl] is the early
    [return nil, ctx.Err()]. *)
Fixpoint rangeFields (ctx : Context) (env : gmap string string) (poll : nat)
    (fs : list Field) (errs : ValidationErrors) (vals : gmap string Value)
  : CtxErr + (ValidationErrors * gmap string Value) :=
  match fs with
  | [] => inr (errs, vals)
  | f :: rest =>
      if Done ctx poll then inl (ctxErr ctx)
      else
        match evalField env f with
        | inr e => rangeFields ctx env (S poll) rest (errs ++ [e])%list vals
        | inl v => rangeFields ctx env (S poll) rest errs (<[Key f := v]> vals)
        end
  end.

(** [ValidateMap]: the Go pair of a [Result] pointer and an [error], [None] for [nil]. *)
Definition ValidateMap (ctx : Context) (v : Validator) (env : gmap string string)
  : option Result * option error :=
  match rangeFields ctx env 0 (fields v) [] ∅ with
  | inl c => (None, Some (EContext c))
  | inr (errs, vals) =>
      if (0 <? length errs)%nat then (None, Some (EValidation errs))
      else (Some {| values := vals |}, None)
  end.

End Validate.

(** ** The store

    Go maps and slices are references.  To state what a call leaves
    untouched, [ValidateMap] and [Schema] are also given over a store of
    objects: the backing array of [v.fields], the caller's [env] map, the
    [values] map made by [ValidateMap] and the [out] slice made by
    [Schema]. *)

Abbreviation loc := positive (only parsing).

Inductive obj :=
| OFields (fs : list Field)
| OEnv (m : gmap string string)
| OValues (m : gmap string Value)
| OSchema (out : list FieldSchema).

Abbreviation heap := (gmap loc obj) (only parsing).

(** Computations on the store; [None] is a run-time panic or a reference of
    the wrong type, which Go's type system excludes. *)
Definition M (A : Type) : Type := heap -> option (heap * A).

Definition ret {A} (a : A) : M A := fun h => Some (h, a).

Definition bind {A B} (m : M A) (k : A -> M B) : M B :=
  fun h => match m h with
           | Some (h', a) => k a h'
           | None => None
           end.

Declare Scope heap_scope.
Delimit Scope heap_scope with heap.
Notation "x <- c1 ;; c2" := (bind c1 (fun x => c2))
  (at level 100, c1 at next level, right associativity) : heap_scope.

(** [make(...)]: a new object at an address not in use. *)
Definition alloc (o : obj) : M loc :=
  fun h => let l := fresh (dom h) in Some (<[l := o]> h, l).

(** [range v.fields] *)
Definition load_fields (l : loc) : M (list Field) :=
  fun h => match h !! l with
           | Some (OFields fs) => Some (h, fs)
           | _ => None
           end.

(** [raw, present := env[k]] *)
Definition env_index (l : loc) (k : string) : M (string * bool) :=
  fun h => match h !! l with
           | Some (OEnv m) => Some (h, index2 "" m k)
           | _ => None
           end.

(** [values[k] = v] *)
Definition values_store (l : loc) (k : string) (v : Value) : M unit :=
  fun h => match h !! l with
           | Some (OValues m) => Some (<[l := OValues (<[k := v]> m)]> h, tt)
           | _ => None
           end.

(** [out[i] = d] *)
Definition schema_store (l : loc) (i : nat) (d : FieldSchema) : M unit :=
  fun h => match h !! l with
           | Some (OSchema out) =>
               match store_at i d out with
               | Some out' => Some (<[l := OSchema out']> h, tt)
               | None => None
               end
           | _ => None
           end.

Section ValidateStore.
Context {L : GoLib}.
Local Open Scope heap_scope.

(** The loop body of [ValidateMap] with [env] read through its reference. *)
Definition evalFieldH (env : loc) (f : Field) : M (Value + ValidationError) :=
  let kind := resolve_kind f in
  p <- env_index env (Key f) ;;
  let '(raw, present) := p in
  if negb present || String.eqb raw "" then
    if Required f && String.eqb (Default f) "" then
      ret (inr {| EKey := Key f; Reason := "required variable is missing or empty" |})
    else ret (check_and_parse f kind (Default f))
  else ret (check_and_parse f kind raw).

Fixpoint rangeFieldsH (ctx : Context) (env vals : loc) (poll : nat)
    (fs : list Field) (errs : ValidationErrors) : M (CtxErr + ValidationErrors) :=
  match fs with
  | [] => ret (inr errs)
  | f :: rest =>
      if Done ctx poll then ret (inl (ctxErr ctx))
      else
        r <- evalFieldH env f ;;
        match r with
        | inr e => rangeFieldsH ctx env vals (S poll) rest (errs ++ [e])%list
        | inl v =>
            _ <- values_store vals (Key f) v ;;
            rangeFieldsH ctx env vals (S poll) rest errs
        end
  end.

(** [ValidateMap] on the store: [v] is the address of the validator's
    fields, [env] of the caller's map; the [Result] is the address of the
    [values] map. *)
Definition ValidateMapH (ctx : Context) (v env : loc)
  : M (option loc * option error) :=
  fs <- load_fields v ;;
  vals <- alloc (OValues ∅) ;;
  r <- rangeFieldsH ctx env vals 0 fs [] ;;
  match r with
  | inl c => ret (None, Some (EContext c))
  | inr errs =>
      if (0 <? length errs)%nat then ret (None, Some (EValidation errs))
      else ret (Some vals, None)
  end.

End ValidateStore.

Section SchemaStore.
Local Open Scope heap_scope.

Fixpoint schemaLoopH (out : loc) (i : nat) (fs : list Field) : M unit :=
  match fs with
  | [] => ret tt
  | f :: rest =>
      _ <- schema_store out i (describe f) ;;
      schemaLoopH out (S i) rest
  end.

(** [Schema] on the store: returns the address of the new [out] slice. *)
Definition SchemaH (v : loc) : M loc :=
  fs <- load_fields v ;;
  out <- alloc (OSchema (replicate (length fs) zeroFieldSchema)) ;;
  _ <- schemaLoopH out 0 fs ;;
  ret out.

End SchemaStore.

(** ** A reference implementation of the library functions

    An executable model of the library functions on the ASCII fragment of
    their inputs, used to run the engine on concrete inputs.  The general
    theorems below hold for every [GoLib]. *)

Module RefLib.

Local Open Scope Z_scope.

Definition code (c : ascii) : Z := Z.of_nat (nat_of_ascii c).

(** The ASCII white space of [unicode.IsSpace]: tab, line feed, vertical
    tab, form feed, carriage return, space. *)
Definition is_space (c : ascii) : bool :=
  (code c =? 32) || ((9 <=? code c) && (code c <=? 13)).

Fixpoint trim_left (s : string) : string :=
  match s with
  | String c r => if is_space c then trim_left r else s
  | EmptyString => EmptyString
  end.

Definition rev_string (s : string) : string :=
  string_of_list_ascii (rev (list_ascii_of_string s)).

Definition trim_space (s : string) : string :=
  rev_string (trim_left (rev_string (trim_left s))).

Definition lower_char (c : ascii) : ascii :=
  if (65 <=? code c) && (code c <=? 90)
  then ascii_of_nat (nat_of_ascii c + 32) else c.

Fixpoint to_lower (s : string) : string :=
  match s with
  | String c r => String (lower_char c) (to_lower r)
  | EmptyString => EmptyString
  end.

(** [strconv.Quote] on printable ASCII: the double quote and the backslash
    are escaped, as are line feed, tab and carriage return. *)
Fixpoint escape (s : string) : string :=
  match s with
  | EmptyString => EmptyString
  | String c r =>
      let e :=
        if code c =? 34 then String "\"%char (String c EmptyString)
        else if code c =? 92 then "\\"%string
        else if code c =? 10 then "\n"%string
        else if code c =? 9 then "\t"%string
        else if code c =? 13 then "\r"%string
        else String c EmptyString in
      (e ++ escape r)%string
  end.

Definition dquote : string := String (ascii_of_nat 34) EmptyString.

Definition quote (s : string) : string := (dquote ++ escape s ++ dquote)%string.

Definition is_digit (c : ascii) : bool := (48 <=? code c) && (code c <=? 57).

(** The value of a run of decimal digits; [None] on any other byte. *)
Fixpoint digits_val (s : string) (acc : Z) : option Z :=
  match s with
  | EmptyString => Some acc
  | String c r =>
      if is_digit c then digits_val r (10 * acc + (code c - 48)) else None
  end.

(** An optional sign and the rest. *)
Definition split_sign (s : string) : bool * string :=
  match s with
  | String c r =>
      if code c =? 43 then (false, r)
      else if code c =? 45 then (true, r)
      else (false, s)
  | EmptyString => (false, s)
  end.

(** [strconv.ParseInt(s, 10, 64)] *)
Definition parse_int (s : string) : option Z :=
  let '(neg, body) := split_sign s in
  match body with
  | EmptyString => None
  | _ =>
      match digits_val body 0 with
      | None => None
      | Some un =>
          if negb neg && (2 ^ 63 <=? un) then None
          else if neg && (2 ^ 63 <? un) then None
          else Some (if neg then - un else un)
      end
  end.

(** The binary64 nearest to [n / d] (ties to even), for [0 < n], [0 < d];
    [None] when the result overflows. *)
Definition round_binary64 (n d : Z) : option Z :=
  let e0 := Z.log2 n - Z.log2 d in
  let below :=
    if 0 <=? e0 then n <? d * 2 ^ e0 else n * 2 ^ (- e0) <? d in
  let e := if below then e0 - 1 else e0 in
  let e := Z.max e (-1022) in
  let s := 52 - e in
  let num := if 0 <=? s then n * 2 ^ s else n in
  let den := if 0 <=? s then d else d * 2 ^ (- s) in
  let q := num / den in
  let r := num mod den in
  let q := if (den <? 2 * r) || ((den =? 2 * r) && Z.odd q) then q + 1 else q in
  let bits := (e + 1022) * 2 ^ 52 + q in
  if 2047 * 2 ^ 52 <=? bits then None else Some bits.

Fixpoint split_dot (s : string) : string * option string :=
  match s with
  | EmptyString => (EmptyString, None)
  | String c r =>
      if code c =? 46 then (EmptyString, Some r)
      else let '(a, b) := split_dot r in (String c a, b)
  end.

(** [strconv.ParseFloat(s, 64)] on plain decimal numbers: an optional sign,
    digits, and an optional fraction. *)
Definition parse_float (s : string) : option Z :=
  let '(neg, body) := split_sign s in
  let '(ip, fp) := split_dot body in
  let fp := default EmptyString fp in
  match (ip ++ fp)%string with
  | EmptyString => None
  | ds =>
      match digits_val ds 0 with
      | None => None
      | Some m =>
          let sign := if neg then 2 ^ 63 else 0 in
          if m =? 0 then Some sign
          else
            match round_binary64 m (10 ^ Z.of_nat (String.length fp)) with
            | None => None
            | Some b => Some (sign + b)
            end
      end
  end.

Definition is_alpha (c : ascii) : bool :=
  ((97 <=? code c) && (code c <=? 122)) || ((65 <=? code c) && (code c <=? 90)).

Inductive scheme_scan :=
| SchemeAt (scheme rest : string)
| NoScheme
| MissingScheme.

(** [getScheme] of [net/url]. *)
Fixpoint get_scheme (first : bool) (s : string) : scheme_scan :=
  match s with
  | EmptyString => NoScheme
  | String c r =>
      let continue :=
        match get_scheme false r with
        | SchemeAt sch rest => SchemeAt (String c sch) rest
        | other => other
        end in
      if is_alpha c then continue
      else if is_digit c || (code c =? 43) || (code c =? 45) || (code c =? 46)
      then (if first then NoScheme else continue)
      else if code c =? 58 then
        (if first then MissingScheme else SchemeAt EmptyString r)
      else NoScheme
  end.

(** The bytes of [s] before the first [/] or [?]. *)
Fixpoint authority (s : string) : string :=
  match s with
  | EmptyString => EmptyString
  | String c r =>
      if (code c =? 47) || (code c =? 63) then EmptyString
      else String c (authority r)
  end.

(** What follows the last [@] of [s]; [cur] is the candidate so far. *)
Fixpoint after_last_at (s cur : string) : string :=
  match s with
  | EmptyString => cur
  | String c r =>
      if code c =? 64 then after_last_at r r else after_last_at r cur
  end.

(** [url.ParseRequestURI] on URLs without escapes, ports to validate or IP
    literals: the scheme, then either an opaque rest or [//authority]. *)
Definition parse_request_uri (s : string) : option URL :=
  match s with
  | EmptyString => None
  | _ =>
      if String.eqb s "*" then Some (mkURL EmptyString EmptyString)
      else
        match get_scheme true s with
        | MissingScheme => None
        | NoScheme =>
            match s with
            | String c _ =>
                if code c =? 47 then Some (mkURL EmptyString EmptyString)
                else None
            | EmptyString => None
            end
        | SchemeAt sch rest =>
            match rest with
            | String c1 (String c2 r) =>
                if (code c1 =? 47) && (code c2 =? 47) then
                  let a := authority r in
                  Some (mkURL (to_lower sch) (after_last_at a a))
                else Some (mkURL (to_lower sch) EmptyString)
            | _ => Some (mkURL (to_lower sch) EmptyString)
            end
        end
  end.

(** The longest prefix of [s] whose bytes satisfy [p], and the rest. *)
Fixpoint span (p : ascii -> bool) (s : string) : string * string :=
  match s with
  | EmptyString => (EmptyString, EmptyString)
  | String c r =>
      if p c then let '(a, b) := span p r in (String c a, b)
      else (EmptyString, s)
  end.

Definition unit_ns (u : string) : option Z :=
  if String.eqb u "ns" then Some 1
  else if String.eqb u "us" then Some 1000
  else if String.eqb u "ms" then Some 1000000
  else if String.eqb u "s" then Some 1000000000
  else if String.eqb u "m" then Some 60000000000
  else if String.eqb u "h" then Some 3600000000000
  else None.

(** The components [digits unit] of a duration, summed in nanoseconds. *)
Fixpoint duration_parts (fuel : nat) (s : string) (acc : Z) : option Z :=
  match fuel with
  | O => None
  | S fuel' =>
      match s with
      | EmptyString => Some acc
      | _ =>
          let '(ds, r1) := span is_digit s in
          let '(u, r2) := span (fun c => negb (is_digit c || (code c =? 46))) r1 in
          match ds, digits_val ds 0, unit_ns u with
          | String _ _, Some n, Some k =>
              let acc' := acc + n * k in
              if 2 ^ 63 <? acc' then None else duration_parts fuel' r2 acc'
          | _, _, _ => None
          end
      end
  end.

(** [time.ParseDuration] on durations whose components are whole numbers. *)
Definition parse_duration (s : string) : option Z :=
  let '(neg, body) := split_sign s in
  if String.eqb body "0" then Some 0
  else
    match body with
    | EmptyString => None
    | _ =>
        match duration_parts (S (String.length body)) body 0 with
        | None => None
        | Some d =>
            if neg then Some (- d)
            else if 2 ^ 63 - 1 <? d then None else Some d
        end
    end.

#[export] Instance lib : GoLib := {|
  TrimSpace := trim_space;
  ToLower := to_lower;
  Quote := quote;
  ParseInt := parse_int;
  ParseFloat := parse_float;
  ParseRequestURI := parse_request_uri;
  ParseDuration := parse_duration
|}.

End RefLib.

(** ** Vocabulary of the properties *)

Section Vocabulary.
Context {L : GoLib}.

(** The failure, if any, of one declaration. *)
Definition failure_of (env : gmap string string) (f : Field)
  : option ValidationError :=
  match evalField env f with
  | inr e => Some e
  | inl _ => None
  end.

(** The failures of all declarations, in declaration order. *)
Definition failures (env : gmap string string) (fs : list Field)
  : ValidationErrors := omap (failure_of env) fs.

(** The writes [values[f.Key] = parsed] of all declarations, in order. *)
Definition stored (env : gmap string string) (fs : list Field)
    (vals : gmap string Value) : gmap string Value :=
  fold_left (fun m f => match evalField env f with
                        | inl v => <[Key f := v]> m
                        | inr _ => m
                        end) fs vals.

Definition live (ctx : Context) (poll n : nat) : Prop :=
  forall i, (poll <= i < poll + n)%nat -> Done ctx i = false.

End Vocabulary.

(** What one call of [ValidateMap] on the store [h] guarantees about the
    store [h1] it leaves, the Result reference [res] and the error [err]:
    the outcome is the one computed from the declarations [fs] and the
    contents [m] of the input map; a Result is a map at an address that was
    not in use; every object of [h] is unchanged. *)
Definition validate_post {L : GoLib} (ctx : Context) (fs : list Field)
    (m : gmap string string) (h h1 : heap) (res : option loc)
    (err : option error) : Prop :=
  err = (ValidateMap ctx (New fs) m).2 /\
  match res with
  | Some l =>
      (l ∉ dom h) /\
      (exists r, (ValidateMap ctx (New fs) m).1 = Some r
                 /\ h1 !! l = Some (OValues (values r)))
  | None => (ValidateMap ctx (New fs) m).1 = None
  end /\
  (forall l, l ∈ dom h -> h1 !! l = h !! l).

(** ** Declarations and inputs used as examples

    The declarations and inputs of [validator_test.go], and a few more. *)

Definition declare (key : string) (kind : Kind) (required : bool)
    (default : string) (allowed : option (list string)) : Field :=
  {| Key := key; FKind := kind; Required := required; Default := default;
     Description := ""; AllowedValues := allowed |}.

Definition portField : Field := declare "PORT" KindInteger false "8080" None.
Definition apiField : Field := declare "API_URL" KindURL true "" None.
Definition levelField : Field :=
  declare "LOG_LEVEL" KindString false "info"
    (Some ["debug"; "info"; "warn"; "error"]).

Definition service : Validator := New [portField; apiField].

Definition serviceEnv : gmap string string :=
  {[ "PORT" := "9090"; "API_URL" := "https://api.example.com" ]}.

(** A store holding the declarations of [service] and its input map. *)
Definition serviceHeap : heap :=
  {[ 1%positive := OFields (fields service); 2%positive := OEnv serviceEnv ]}.

Definition dupFirst : Field := declare "A" KindString false "x" None.
Definition dupSecond : Field := declare "A" KindString false "y" None.
Definition dupBadFirst : Field := declare "A" KindString false "x" (Some ["q"]).
Definition dupBadSecond : Field := declare "A" KindString false "y" (Some ["q"]).
Definition restricted : Field := declare "A" KindString false "" (Some ["x"]).
Definition restrictedInt : Field := declare "N" KindInteger false "" (Some ["x"]).
Definition optionalInt : Field := declare "N" KindInteger false "" None.

Definition portError : ValidationError :=
  {| EKey := "PORT"; Reason := "required variable is missing or empty" |}.

(** A string of spaces and tabs. *)
Fixpoint blank (s : string) : bool :=
  match s with
  | EmptyString => true
  | String c r => ((RefLib.code c =? 32) || (RefLib.code c =? 9))%Z && blank r
  end.

(** The rendering that writes each line as the indentation followed by
    field "<key>": <reason>. *)
Definition rendering_with_bare_lines (indent : string) (ve : ValidationErrors)
  : string :=
  pretty (length ve) ++ " environment variable validation error(s):" ++ nl
  ++ fold_right
       (fun e rest =>
          indent ++ "field " ++ RefLib.dquote ++ EKey e ++ RefLib.dquote ++ ": "
          ++ Reason e ++ nl ++ rest) "" ve.

(** ** Validate: the process environment

    [os.Getenv] is a system call; the process environment is the function
    [getenv] that it computes (the empty string for an unset variable). *)

(** [for _, f := range v.fields { if val := os.Getenv(f.Key); val != "" {
    env[f.Key] = val } }] *)
Fixpoint collectEnv (getenv : string -> string) (fs : list Field)
    (env : gmap string string) : gmap string string :=
  match fs with
  | [] => env
  | f :: rest =>
      let val := getenv (Key f) in
      collectEnv getenv rest
        (if negb (String.eqb val "") then <[Key f := val]> env else env)
  end.

(** [Validate] *)
Definition Validate {L : GoLib} (ctx : Context) (v : Validator)
    (getenv : string -> string) : option Result * option error :=
  let env := collectEnv getenv (fields v) ∅ in
  ValidateMap ctx v env.

(** The raw value that the loop body of [ValidateMap] hands to the
    allowed-values check: the input value when it is present and not empty,
    the default otherwise. *)
Definition resolved (env : gmap string string) (f : Field) : string :=
  match env !! Key f with
  | Some raw => if String.eqb raw "" then Default f else raw
  | None => Default f
  end.

(** The failures carried by the error of a call, none for any other
    outcome. *)
Definition batch_of (out : option Result * option error) : ValidationErrors :=
  match out.2 with
  | Some (EValidation ve) => ve
  | _ => []
  end.

(** 1 for a call that returns, 0 for a call that panics. *)
Definition returned {A} (o : outcome A) : nat :=
  match o with
  | Returns _ => 1
  | Panics _ => 0
  end.

(** The six kinds that [parseValue] recognises. *)
Definition known_kinds : list Kind :=
  [KindString; KindInteger; KindFloat; KindBoolean; KindURL; KindDuration].

(** A process environment with two variables set, one of them to the empty
    string, and one undeclared variable. *)
Definition serviceGetenv (k : string) : string :=
  if String.eqb k "PORT" then "9090"
  else if String.eqb k "API_URL" then "https://api.example.com"
  else if String.eqb k "HOME" then "/root"
  else "".

Definition oddField : Field := declare "MODE" "enum" false "fast" None.

(** The reference functions reject the empty string, as the library does. *)
Lemma ref_lib_laws : GoLibLaws RefLib.lib.
Proof. split; reflexivity. Qed.

(** * Properties *)

(** ** The evaluation pass *)

Section PassFacts.
Context {L : GoLib}.

Lemma live_background poll n : live Background poll n.
Proof. intros i _. reflexivity. Qed.

Lemma live_step ctx poll n :
  live ctx poll (S n) -> Done ctx poll = false /\ live ctx (S poll) n.
Proof.
  intros Hl. split.
  - apply Hl. lia.
  - intros i Hi. apply Hl. lia.
Qed.

Lemma failures_cons env f rest :
  failures env (f :: rest)
  = match evalField env f with
    | inr e => e :: failures env rest
    | inl _ => failures env rest
    end.
Proof.
  unfold failures. cbn [omap list_omap]. unfold failure_of at 1.
  by destruct (evalField env f).
Qed.

Lemma rangeFields_live ctx env fs : forall poll errs vals,
  live ctx poll (length fs) ->
  rangeFields ctx env poll fs errs vals
  = inr ((errs ++ failures env fs)%list, stored env fs vals).
Proof.
  induction fs as [|f rest IH]; intros poll errs vals Hl.
  - cbn. by rewrite app_nil_r.
  - apply live_step in Hl as [Hd Hl].
    cbn [rangeFields stored fold_left]. rewrite Hd, failures_cons.
    destruct (evalField env f) as [v|e] eqn:E; rewrite IH by done.
    + done.
    + by rewrite <- app_assoc.
Qed.

Lemma rangeFields_cancelled ctx env n fs : forall poll errs vals,
  doneFrom ctx = Some n -> (poll <= n < poll + length fs)%nat ->
  rangeFields ctx env poll fs errs vals = inl (ctxErr ctx).
Proof.
  induction fs as [|f rest IH]; intros poll errs vals Hd Hn;
    cbn [rangeFields length] in *.
  - lia.
  - unfold Done. rewrite Hd.
    destruct (Nat.leb_spec n poll) as [Hle|Hlt]; [done|].
    destruct (evalField env f); apply IH; auto; lia.
Qed.

Lemma failures_nil_iff env fs :
  failures env fs = [] <->
  forall f, f ∈ fs -> exists v, evalField env f = inl v.
Proof.
  induction fs as [|f rest IH].
  - split; [intros _ f Hf; inversion Hf | done].
  - rewrite failures_cons.
    destruct (evalField env f) as [v|e] eqn:E.
    + rewrite IH. split.
      * intros H g Hg. apply elem_of_cons in Hg as [->|Hg]; eauto.
      * intros H g Hg. apply H. by right.
    + split; [done|]. intros H.
      destruct (H f) as [v Hv]; [by left|]. congruence.
Qed.

Lemma elem_of_failures env fs e :
  e ∈ failures env fs <-> exists f, f ∈ fs /\ evalField env f = inr e.
Proof.
  unfold failures. rewrite list_elem_of_omap. split.
  - intros (f & Hf & Hfe). exists f. split; [done|].
    unfold failure_of in Hfe. destruct (evalField env f); congruence.
  - intros (f & Hf & Hfe). exists f. split; [done|].
    unfold failure_of. by rewrite Hfe.
Qed.

Lemma dom_stored env fs : forall vals,
  failures env fs = [] ->
  dom (stored env fs vals) = dom vals ∪ list_to_set (Key <$> fs).
Proof.
  induction fs as [|f rest IH]; intros vals Hnil.
  - cbn. set_solver.
  - rewrite failures_cons in Hnil. cbn [stored fold_left].
    destruct (evalField env f) as [v|e] eqn:E; [|done].
    fold (stored env rest (<[Key f := v]> vals)).
    rewrite (IH _ Hnil), dom_insert_L, fmap_cons, list_to_set_cons. set_solver.
Qed.

Lemma stored_app env fs gs vals :
  stored env (fs ++ gs)%list vals = stored env gs (stored env fs vals).
Proof. unfold stored. apply fold_left_app. Qed.

Lemma stored_other env fs k : forall vals,
  (forall f, f ∈ fs -> Key f <> k) ->
  stored env fs vals !! k = vals !! k.
Proof.
  induction fs as [|f rest IH]; intros vals Hk; [done|].
  cbn [stored fold_left].
  fold (stored env rest (match evalField env f with
                         | inl v => <[Key f := v]> vals
                         | inr _ => vals
                         end)).
  rewrite IH.
  - destruct (evalField env f); [|done].
    apply lookup_insert_ne, Hk. by left.
  - intros g Hg. apply Hk. by right.
Qed.

(** With several declarations of one key, the map holds the value of the
    last of them (when it succeeds). *)
Lemma stored_last_wins env pre f post vals v :
  evalField env f = inl v ->
  (forall g, g ∈ post -> Key g <> Key f) ->
  stored env (pre ++ f :: post)%list vals !! Key f = Some v.
Proof.
  intros Hf Hpost. rewrite stored_app. cbn [stored fold_left]. rewrite Hf.
  fold (stored env post (<[Key f := v]> (stored env pre vals))).
  rewrite stored_other by done. apply lookup_insert_eq.
Qed.

Lemma ValidateMap_live ctx v env :
  live ctx 0 (length (fields v)) ->
  ValidateMap ctx v env
  = match failures env (fields v) with
    | [] => (Some {| values := stored env (fields v) ∅ |}, None)
    | errs => (None, Some (EValidation errs))
    end.
Proof.
  intros Hl. unfold ValidateMap. rewrite rangeFields_live by done.
  rewrite app_nil_l. by destruct (failures env (fields v)).
Qed.

(** The three ways in which the loop body resolves the raw value. *)
Lemma evalField_provided env f raw :
  env !! Key f = Some raw -> raw <> "" ->
  evalField env f = check_and_parse f (resolve_kind f) raw.
Proof.
  unfold evalField, index2. intros -> Hne.
  apply String.eqb_neq in Hne. cbn [negb orb]. by rewrite Hne.
Qed.

Lemma not_provided env f :
  env !! Key f = None \/ env !! Key f = Some "" ->
  exists raw present,
    index2 "" env (Key f) = (raw, present)
    /\ negb present || String.eqb raw "" = true.
Proof.
  unfold index2. intros [-> | ->]; eauto.
Qed.

Lemma evalField_required_missing env f :
  env !! Key f = None \/ env !! Key f = Some "" ->
  Required f = true -> Default f = "" ->
  evalField env f
  = inr {| EKey := Key f; Reason := "required variable is missing or empty" |}.
Proof.
  intros (raw & present & Hi & Hnp)%not_provided Hr Hd.
  unfold evalField. by rewrite Hi, Hnp, Hr, Hd.
Qed.

Lemma evalField_default env f :
  env !! Key f = None \/ env !! Key f = Some "" ->
  Required f = false \/ Default f <> "" ->
  evalField env f = check_and_parse f (resolve_kind f) (Default f).
Proof.
  intros (raw & present & Hi & Hnp)%not_provided Hrd.
  unfold evalField. rewrite Hi, Hnp.
  destruct Hrd as [-> | Hd]; [done|].
  apply String.eqb_neq in Hd. rewrite Hd. by rewrite andb_false_r.
Qed.

End PassFacts.

(** ** ValidateMap: all errors or a complete Result *)

Section PassClaims.
Context {L : GoLib}.

(** C1. For every declaration list and input map, in a call that is not
    cancelled, [ValidateMap] evaluates every declared field: the batch it
    returns holds the failure of every failing declaration, in declaration
    order, whatever failed before.  It returns that batch (and no Result)
    exactly when at least one field failed; otherwise it returns a Result
    (and no error) whose key set is exactly the set of declared keys. *)
Theorem ValidateMap_batch_or_result (ctx : Context) (v : Validator)
    (env : gmap string string) :
  live ctx 0 (length (fields v)) ->
  let errs := failures env (fields v) in
  (forall e, e ∈ errs <-> exists f, f ∈ fields v /\ evalField env f = inr e) /\
  ((exists f e, f ∈ fields v /\ evalField env f = inr e) <->
     ValidateMap ctx v env = (None, Some (EValidation errs)) /\ errs <> []) /\
  ((forall f, f ∈ fields v -> exists x, evalField env f = inl x) <->
     exists r, ValidateMap ctx v env = (Some r, None) /\
               dom (values r) = list_to_set (Key <$> fields v)) /\
  (forall r err, ValidateMap ctx v env <> (Some r, Some err)) /\
  ValidateMap ctx v env <> (None, None).
Proof.
  intros Hl. cbv zeta.
  pose proof (ValidateMap_live ctx v env Hl) as HV.
  pose proof (failures_nil_iff env (fields v)) as Hnil.
  pose proof (fun e => elem_of_failures env (fields v) e) as Hin.
  remember (failures env (fields v)) as errs eqn:E.
  split; [exact Hin|].
  assert (forall r err, ValidateMap ctx v env <> (Some r, Some err)) as Hboth.
  { intros r err. rewrite HV. destruct errs; congruence. }
  assert (ValidateMap ctx v env <> (None, None)) as Hnone.
  { rewrite HV. destruct errs; congruence. }
  destruct errs as [|e0 errs'].
  - assert (Hall := proj1 Hnil eq_refl).
    split; [|split; [|split]]; [| |done|done].
    + split.
      * intros (f & e & Hf & Hfe). destruct (Hall f Hf). congruence.
      * intros [_ H]. done.
    + split; [|done]. intros _. eexists. split; [exact HV|].
      cbn [values]. rewrite dom_stored by done. set_solver.
  - assert (exists f e, f ∈ fields v /\ evalField env f = inr e) as Hex.
    { destruct (proj1 (Hin e0)) as (f & Hf & Hfe); [by left|]. eauto. }
    split; [|split; [|split]]; [| |done|done].
    + split; [done|]. intros _. done.
    + split.
      * intros Hall. destruct Hex as (f & e & Hf & Hfe).
        destruct (Hall f Hf). congruence.
      * intros (r & Hr & _). rewrite HV in Hr. congruence.
Qed.

(** C2. Resolution of the raw value of a declared field.  A non-empty value
    present in the input map is the raw value, whatever the default.  When
    the key is absent or maps to the empty string: if the field is required
    and its default is empty, the field yields exactly the failure
    "required variable is missing or empty" and nothing else is checked;
    otherwise the default is the raw value, also when the field is required
    and also when the default is empty. *)
Theorem evalField_resolution (env : gmap string string) (f : Field) :
  (forall raw, env !! Key f = Some raw -> raw <> "" ->
     evalField env f = check_and_parse f (resolve_kind f) raw) /\
  (env !! Key f = None \/ env !! Key f = Some "" ->
     (Required f = true -> Default f = "" ->
        evalField env f
        = inr {| EKey := Key f;
                 Reason := "required variable is missing or empty" |}) /\
     (Required f = false \/ Default f <> "" ->
        evalField env f = check_and_parse f (resolve_kind f) (Default f))).
Proof.
  split; [apply evalField_provided|].
  intros Habs. split.
  - by apply evalField_required_missing.
  - by apply evalField_default.
Qed.

End PassClaims.

(** ** Cancellation *)

Section CancelClaims.
Context {L : GoLib}.

(** C4 (amended). For every non-empty declaration list and every input
    map, if the cancellation signal is already set when [ValidateMap] is
    called, or is found set at the check before any declared field, the
    pass aborts and returns the cancellation error: no Result and no
    ValidationErrors batch; the per-field errors collected before that check
    are discarded. *)
Theorem ValidateMap_cancelled (ctx : Context) (v : Validator)
    (env : gmap string string) (n : nat) :
  doneFrom ctx = Some n -> (n < length (fields v))%nat ->
  ValidateMap ctx v env = (None, Some (EContext (ctxErr ctx))) /\
  (forall r err, ValidateMap ctx v env <> (Some r, err)) /\
  (forall r ve, ValidateMap ctx v env <> (r, Some (EValidation ve))).
Proof.
  intros Hd Hn.
  assert (ValidateMap ctx v env = (None, Some (EContext (ctxErr ctx)))) as HV.
  { unfold ValidateMap.
    rewrite (rangeFields_cancelled ctx env n) by (auto; lia). reflexivity. }
  rewrite HV. repeat split; congruence.
Qed.

End CancelClaims.

(** ** Raw value, allowed values and coercion of one field *)

Section FieldClaims.
Context {L : GoLib}.

Lemma found_in_spec raw allowed : found_in raw allowed = true <-> raw ∈ allowed.
Proof.
  induction allowed as [|a rest IH]; cbn [found_in].
  - split; [done|]. intros H. inversion H.
  - destruct (String.eqb_spec raw a) as [->|Hne].
    + split; [intros _; by left | done].
    + rewrite IH. split; [intros H; by right|].
      intros H. apply elem_of_cons in H as [H|H]; [done|exact H].
Qed.

Lemma check_and_parse_allowed f kind raw :
  elems (AllowedValues f) = [] \/ raw ∈ elems (AllowedValues f) ->
  check_and_parse f kind raw = parseValue (Key f) kind raw.
Proof.
  unfold check_and_parse. intros [-> | Hin]; [reflexivity|].
  apply found_in_spec in Hin. rewrite Hin.
  by rewrite andb_false_r.
Qed.

Lemma evalField_not_provided env f :
  Required f = false -> Default f = "" ->
  env !! Key f = None \/ env !! Key f = Some "" ->
  elems (AllowedValues f) = [] \/ "" ∈ elems (AllowedValues f) ->
  evalField env f = parseValue (Key f) (resolve_kind f) "".
Proof.
  intros Hr Hd Habs Hal.
  rewrite evalField_default by auto.
  rewrite Hd. by apply check_and_parse_allowed.
Qed.

(** C10 (amended). For every field that is not required, has an empty
    default, whose allowed-values list is empty or contains the empty
    string, and whose key is absent from the input map or maps to the empty
    string: the empty string is the raw value; with kind integer, float,
    boolean, url or duration the field fails with that kind's coercion
    failure, and a [ValidateMap] call that is not cancelled returns a batch
    holding it; with kind string the field succeeds with the empty
    string. *)
Theorem evalField_empty_default {Laws : GoLibLaws L}
    (env : gmap string string) (f : Field) :
  Required f = false -> Default f = "" ->
  env !! Key f = None \/ env !! Key f = Some "" ->
  elems (AllowedValues f) = [] \/ "" ∈ elems (AllowedValues f) ->
  (FKind f = KindString -> evalField env f = inl (VString "")) /\
  (FKind f = KindInteger ->
     evalField env f
     = inr (parse_error (Key f) "cannot parse " "" " as an integer")) /\
  (FKind f = KindFloat ->
     evalField env f
     = inr (parse_error (Key f) "cannot parse " "" " as a float")) /\
  (FKind f = KindBoolean ->
     evalField env f
     = inr (parse_error (Key f) "cannot parse " ""
              " as a boolean; accepted values are true, false, 1, 0, yes, no")) /\
  (FKind f = KindURL ->
     evalField env f
     = inr (parse_error (Key f) "cannot parse " ""
              " as an absolute URL with scheme and host")) /\
  (FKind f = KindDuration ->
     evalField env f
     = inr (parse_error (Key f) "cannot parse " ""
              " as a duration; use Go duration syntax such as 5s, 1m30s, or 2h")) /\
  (FKind f ∈ [KindInteger; KindFloat; KindBoolean; KindURL; KindDuration] ->
   forall ctx v, f ∈ fields v -> live ctx 0 (length (fields v)) ->
   exists e errs, evalField env f = inr e /\ EKey e = Key f /\ e ∈ errs /\
                  ValidateMap ctx v env = (None, Some (EValidation errs))).
Proof.
  intros Hr Hd Habs Hal.
  rewrite (evalField_not_provided env f Hr Hd Habs Hal).
  unfold resolve_kind, parseValue.
  assert (forall k, FKind f = k -> k <> "" ->
          (if String.eqb (FKind f) "" then KindString else FKind f) = k) as Hk.
  { intros k -> Hne. apply String.eqb_neq in Hne. by rewrite Hne. }
  assert (FKind f = KindInteger ->
          parseValue (Key f) (resolve_kind f) ""
          = inr (parse_error (Key f) "cannot parse " "" " as an integer")) as Hi.
  { intros E. unfold resolve_kind, parseValue. rewrite (Hk _ E) by done.
    cbn. by rewrite TrimSpace_empty, ParseInt_empty. }
  assert (FKind f = KindFloat ->
          parseValue (Key f) (resolve_kind f) ""
          = inr (parse_error (Key f) "cannot parse " "" " as a float")) as Hf.
  { intros E. unfold resolve_kind, parseValue. rewrite (Hk _ E) by done.
    cbn. by rewrite TrimSpace_empty, ParseFloat_empty. }
  assert (FKind f = KindBoolean ->
          parseValue (Key f) (resolve_kind f) ""
          = inr (parse_error (Key f) "cannot parse " ""
                   " as a boolean; accepted values are true, false, 1, 0, yes, no"))
    as Hb.
  { intros E. unfold resolve_kind, parseValue. rewrite (Hk _ E) by done.
    cbn. by rewrite TrimSpace_empty, ToLower_empty. }
  assert (FKind f = KindURL ->
          parseValue (Key f) (resolve_kind f) ""
          = inr (parse_error (Key f) "cannot parse " ""
                   " as an absolute URL with scheme and host")) as Hu.
  { intros E. unfold resolve_kind, parseValue. rewrite (Hk _ E) by done.
    cbn. by rewrite TrimSpace_empty, ParseRequestURI_empty. }
  assert (FKind f = KindDuration ->
          parseValue (Key f) (resolve_kind f) ""
          = inr (parse_error (Key f) "cannot parse " ""
                   " as a duration; use Go duration syntax such as 5s, 1m30s, or 2h"))
    as Hdu.
  { intros E. unfold resolve_kind, parseValue. rewrite (Hk _ E) by done.
    cbn. by rewrite TrimSpace_empty, ParseDuration_empty. }
  fold (resolve_kind f). fold (parseValue (Key f) (resolve_kind f) "").
  split; [|split; [|split; [|split; [|split; [|split]]]]];
    [|exact Hi|exact Hf|exact Hb|exact Hu|exact Hdu|].
  - intros E. unfold resolve_kind, parseValue. by rewrite (Hk _ E).
  - intros Hkind ctx v Hin Hl.
    assert (exists e, parseValue (Key f) (resolve_kind f) "" = inr e
                      /\ EKey e = Key f) as (e & He & Hkey).
    { repeat (apply elem_of_cons in Hkind as [Hkind|Hkind]);
        [rewrite (Hi Hkind)|rewrite (Hf Hkind)|rewrite (Hb Hkind)
        |rewrite (Hu Hkind)|rewrite (Hdu Hkind)|inversion Hkind];
        eexists; split; reflexivity. }
    exists e, (failures env (fields v)). split; [exact He|]. split; [exact Hkey|].
    assert (e ∈ failures env (fields v)) as Hmem.
    { apply elem_of_failures. exists f. split; [done|].
      rewrite (evalField_not_provided env f Hr Hd Habs Hal). exact He. }
    split; [exact Hmem|]. rewrite ValidateMap_live by done.
    destruct (failures env (fields v)); [inversion Hmem | reflexivity].
Qed.

(** C6. For a field of kind url, [parseValue] trims surrounding white space
    and succeeds if and only if the trimmed value parses as a request URI
    with a non-empty scheme and a non-empty host; on success the stored
    value is the trimmed string itself, otherwise a failure is returned for
    the field's key. *)
Theorem parseValue_url (key raw : string) :
  let trimmed := TrimSpace raw in
  let valid := exists u, ParseRequestURI trimmed = Some u
                         /\ Scheme u <> "" /\ Host u <> "" in
  (valid <-> parseValue key KindURL raw = inl (VString trimmed)) /\
  (valid <-> exists x, parseValue key KindURL raw = inl x) /\
  (~ valid <->
   parseValue key KindURL raw
   = inr {| EKey := key;
            Reason := "cannot parse " ++ Quote raw
                        ++ " as an absolute URL with scheme and host" |}).
Proof.
  cbv zeta. unfold parseValue, parse_error. cbn [String.eqb KindURL KindString
    KindInteger KindFloat KindBoolean Ascii.eqb Bool.eqb].
  destruct (ParseRequestURI (TrimSpace raw)) as [u|] eqn:E.
  - destruct (String.eqb_spec (Scheme u) "") as [Hs|Hs];
      [|destruct (String.eqb_spec (Host u) "") as [Hh|Hh]]; cbn [orb].
    + repeat split; try congruence.
      * intros (u' & [= <-] & H1 & H2). done.
      * intros (u' & [= <-] & H1 & H2). done.
      * intros (x & Hx). congruence.
      * intros H (u' & [= <-] & H1 & H2). done.
    + repeat split; try congruence.
      * intros (u' & [= <-] & H1 & H2). done.
      * intros (u' & [= <-] & H1 & H2). done.
      * intros (x & Hx). congruence.
      * intros H (u' & [= <-] & H1 & H2). done.
    + repeat split; try congruence; eauto.
      intros H. exfalso. apply H. eauto.
  - repeat split; try congruence.
    + intros (u' & [=] & _). 
    + intros (u' & [=] & _).
    + intros (x & Hx). congruence.
    + intros H (u' & [=] & _).
Qed.

End FieldClaims.

(** ** Rendering of an error batch *)

Section RenderClaims.
Context {L : GoLib}.

Lemma string_app_cons (x : ascii) (a b : string) :
  String x a ++ b = String x (a ++ b).
Proof. reflexivity. Qed.

Lemma string_app_assoc (a b c : string) : (a ++ b) ++ c = a ++ (b ++ c).
Proof.
  induction a as [|x a IH]; [reflexivity|].
  by rewrite !string_app_cons, IH.
Qed.

Lemma string_app_nil_r (a : string) : a ++ "" = a.
Proof.
  induction a as [|x a IH]; [reflexivity|].
  by rewrite string_app_cons, IH.
Qed.

(** The loop [out += line(e)] appends the lines in order. *)
Lemma fold_left_lines (line : ValidationError -> string) ve : forall out,
  fold_left (fun out e => out ++ line e) ve out
  = out ++ fold_right (fun e rest => line e ++ rest) "" ve.
Proof.
  induction ve as [|e ve IH]; intros out; cbn [fold_left fold_right].
  - by rewrite string_app_nil_r.
  - by rewrite IH, string_app_assoc.
Qed.

(** C8 (amended). For every non-empty error batch, the rendering is the
    header "N environment variable validation error(s):" with N the number
    of failures, a line feed, and then one line per failure in batch order,
    each made of two spaces, a dash and a space, the text
    "env-validator: field ", the key as quoted by the %q verb, a colon and a
    space, the reason, and a line feed. *)
Theorem ValidationErrors_Error_render (ve : ValidationErrors) :
  ve <> [] ->
  ValidationErrors_Error ve
  = pretty (length ve) ++ " environment variable validation error(s):" ++ nl
    ++ fold_right
         (fun e rest =>
            "  - " ++ "env-validator: field " ++ Quote (EKey e) ++ ": "
            ++ Reason e ++ nl ++ rest) "" ve.
Proof.
  intros Hne. unfold ValidationErrors_Error.
  destruct ve as [|e0 ve']; [done|]. cbn [length Nat.eqb].
  rewrite fold_left_lines, !string_app_assoc.
  do 3 f_equal. clear Hne.
  generalize (e0 :: ve'). intros l.
  induction l as [|e l IH]; [done|]. simpl. rewrite IH.
  unfold ValidationError_Error. by rewrite !string_app_assoc.
Qed.

(** The typed accessors that check the dynamic type, and [Raw]. *)
Lemma typed_getters_checked (r : Result) (key : string) :
  (values r !! key = None ->
     Result_String r key = Panics (not_declared key)
     /\ Result_Integer r key = Panics (not_declared key)
     /\ Result_Float r key = Panics (not_declared key)
     /\ Result_Boolean r key = Panics (not_declared key)
     /\ Result_Duration r key = Panics (not_declared key)
     /\ DurationResult r key = Panics (not_declared key)
     /\ Result_Raw r key = (None, false)) /\
  (forall x, values r !! key = Some x ->
     Result_Raw r key = (Some x, true)
     /\ Result_Duration r key = Returns x
     /\ (forall s, Result_String r key = Returns s <-> x = VString s)
     /\ (forall n, Result_Integer r key = Returns n <-> x = VInt64 n)
     /\ (forall b, Result_Float r key = Returns b <-> x = VFloat64 b)
     /\ (forall b, Result_Boolean r key = Returns b <-> x = VBool b)
     /\ (forall d, DurationResult r key = Returns d <-> x = VDuration d)).
Proof.
  unfold Result_String, Result_Integer, Result_Float, Result_Boolean,
    Result_Duration, DurationResult, Result_Raw.
  split.
  - intros ->. cbn. repeat split.
  - intros x ->. cbn.
    repeat split; destruct x; try congruence.
Qed.

End RenderClaims.

(** ** Schema *)

Section SchemaFacts.

Lemma store_at_Some {A} i (x : A) out :
  (i < length out)%nat -> store_at i x out = Some (<[i := x]> out).
Proof.
  intros Hi. unfold store_at.
  destruct (Nat.ltb_spec i (length out)); [done | lia].
Qed.

(** The loop fills the slots [i], [i+1], ... and leaves the others. *)
Lemma schemaLoop_spec fs : forall i out,
  (i + length fs <= length out)%nat ->
  schemaLoop i fs out
  = Returns (take i out ++ (describe <$> fs) ++ drop (i + length fs) out)%list.
Proof.
  induction fs as [|f rest IH]; intros i out Hlen; cbn [schemaLoop length] in *.
  - rewrite Nat.add_0_r. cbn. by rewrite take_drop.
  - rewrite store_at_Some by lia.
    rewrite IH by (rewrite length_insert; lia).
    rewrite (take_S_r _ i (describe f)) by (apply list_lookup_insert_eq; lia).
    rewrite take_insert_ge by lia.
    rewrite drop_insert_lt by lia.
    rewrite fmap_cons, <- app_assoc. cbn [app].
    replace (S i + length rest)%nat with (i + S (length rest))%nat by lia.
    reflexivity.
Qed.

Lemma Schema_describe v : Schema v = Returns (describe <$> fields v).
Proof.
  unfold Schema. rewrite schemaLoop_spec by (rewrite length_replicate; lia).
  rewrite take_0, drop_ge by (rewrite length_replicate; lia).
  by rewrite app_nil_l, app_nil_r.
Qed.

End SchemaFacts.

(** ** The store: what a call reads, allocates and writes *)

Section StoreFacts.
Context {L : GoLib}.

Lemma fresh_loc_unused (h : heap) : h !! fresh (dom h) = None.
Proof. apply not_elem_of_dom, is_fresh. Qed.

Lemma fresh_loc_ne (h : heap) l o : h !! l = Some o -> l <> fresh (dom h).
Proof. intros Hl ->. rewrite fresh_loc_unused in Hl. done. Qed.

(** Objects that exist before an allocation are not affected by writes to
    the new object. *)
Lemma frame_insert_fresh (h : heap) o l :
  l ∈ dom h -> <[fresh (dom h) := o]> h !! l = h !! l.
Proof.
  intros [o' Ho]%elem_of_dom. apply lookup_insert_ne.
  intros E. by apply (fresh_loc_ne h l o').
Qed.

Lemma evalFieldH_spec env f h m :
  h !! env = Some (OEnv m) ->
  evalFieldH env f h = Some (h, evalField m f).
Proof.
  intros Hm. unfold evalFieldH, evalField, bind, env_index. rewrite Hm.
  destruct (index2 "" m (Key f)) as [raw present].
  destruct (negb present || String.eqb raw ""); [|reflexivity].
  destruct (Required f && String.eqb (Default f) ""); reflexivity.
Qed.

(** The loop on the store runs the loop of [ValidateMap] on the contents of
    [env] and writes only to the [values] map. *)
Lemma rangeFieldsH_spec ctx env vals m h :
  h !! env = Some (OEnv m) -> env <> vals ->
  forall fs poll errs acc,
  exists acc' r,
    rangeFieldsH ctx env vals poll fs errs (<[vals := OValues acc]> h)
    = Some (<[vals := OValues acc']> h, r)
    /\ match rangeFields ctx m poll fs errs acc with
       | inl c => r = inl c
       | inr (errs', vals') => r = inr errs' /\ acc' = vals'
       end.
Proof.
  intros Hm Hne fs. induction fs as [|f rest IH]; intros poll errs acc;
    cbn [rangeFieldsH rangeFields].
  - exists acc, (inr errs). by unfold ret.
  - destruct (Done ctx poll).
    + exists acc, (inl (ctxErr ctx)). by unfold ret.
    + unfold bind at 1.
      rewrite (evalFieldH_spec env f _ m) by (by rewrite lookup_insert_ne).
      destruct (evalField m f) as [x|e].
      * unfold bind, values_store. rewrite lookup_insert_eq, insert_insert_eq.
        apply IH.
      * apply IH.
Qed.

Lemma ValidateMapH_spec ctx v env h fs m :
  h !! v = Some (OFields fs) -> h !! env = Some (OEnv m) ->
  exists acc res,
    ValidateMapH ctx v env h
    = Some (<[fresh (dom h) := OValues acc]> h,
            (res, (ValidateMap ctx (New fs) m).2))
    /\ match (ValidateMap ctx (New fs) m).1 with
       | Some r => res = Some (fresh (dom h)) /\ acc = values r
       | None => res = None
       end.
Proof.
  intros Hv Hm. unfold ValidateMapH, ValidateMap, bind, load_fields, alloc.
  rewrite Hv. cbn [fields New].
  destruct (rangeFieldsH_spec ctx env (fresh (dom h)) m h Hm
              (fresh_loc_ne _ _ _ Hm) fs 0%nat [] ∅) as (acc & r & -> & Hr).
  exists acc.
  destruct (rangeFields ctx m 0 fs [] ∅) as [c|[errs vals]].
  - subst r. eexists. split; reflexivity.
  - destruct Hr as [-> ->].
    destruct (0 <? length errs)%nat; eexists; split; try reflexivity.
    by split.
Qed.

Lemma schemaLoopH_spec out h fs : forall i slots,
  (i + length fs <= length slots)%nat ->
  exists slots',
    schemaLoop i fs slots = Returns slots'
    /\ schemaLoopH out i fs (<[out := OSchema slots]> h)
       = Some (<[out := OSchema slots']> h, tt).
Proof.
  induction fs as [|f rest IH]; intros i slots Hlen;
    cbn [schemaLoopH schemaLoop length] in *.
  - by exists slots.
  - unfold bind, schema_store. rewrite lookup_insert_eq.
    rewrite store_at_Some by lia. rewrite insert_insert_eq.
    apply IH. rewrite length_insert. lia.
Qed.

Lemma SchemaH_spec v h fs :
  h !! v = Some (OFields fs) ->
  SchemaH v h
  = Some (<[fresh (dom h) := OSchema (describe <$> fs)]> h, fresh (dom h)).
Proof.
  intros Hv. unfold SchemaH, bind, load_fields, alloc. rewrite Hv.
  destruct (schemaLoopH_spec (fresh (dom h)) h fs 0
              (replicate (length fs) zeroFieldSchema)) as (slots & Hs & ->).
  { rewrite length_replicate. lia. }
  pose proof (Schema_describe (New fs)) as Hd. unfold Schema in Hd.
  cbn [fields New] in Hd. rewrite Hd in Hs. by injection Hs as <-.
Qed.

End StoreFacts.

Section StoreClaims.
Context {L : GoLib}.

Lemma ValidateMapH_post ctx v env h fs m :
  h !! v = Some (OFields fs) -> h !! env = Some (OEnv m) ->
  exists h1 res err,
    ValidateMapH ctx v env h = Some (h1, (res, err))
    /\ validate_post ctx fs m h h1 res err.
Proof.
  intros Hv Hm.
  destruct (ValidateMapH_spec ctx v env h fs m Hv Hm) as (acc & res & -> & Hr).
  do 3 eexists. split; [reflexivity|]. unfold validate_post.
  split; [reflexivity|]. split.
  - destruct ((ValidateMap ctx (New fs) m).1) as [r|].
    + destruct Hr as [-> ->]. split; [apply is_fresh|].
      exists r. split; [done|]. apply lookup_insert_eq.
    + by subst res.
  - intros l Hl. by apply frame_insert_fresh.
Qed.

(** C9. [ValidateMap] and [Schema] never modify the declared field list or
    the caller's input map: a call of [ValidateMap] allocates its own values
    map, its outcome is determined by the declarations and the input map,
    and every object that existed before the call (the declarations, the
    input map, the Result of an earlier call) is unchanged after it; the
    same holds for [Schema], and a later call against the same declarations
    behaves as a first one. *)
Theorem ValidateMapH_frame (ctx : Context) (v env : loc) (h : heap)
    (fs : list Field) (m : gmap string string) :
  h !! v = Some (OFields fs) -> h !! env = Some (OEnv m) ->
  exists h1 res err,
    ValidateMapH ctx v env h = Some (h1, (res, err)) /\
    validate_post ctx fs m h h1 res err /\
    h1 !! v = Some (OFields fs) /\ h1 !! env = Some (OEnv m) /\
    (exists h2 out,
       SchemaH v h1 = Some (h2, out) /\ (out ∉ dom h1) /\
       forall l, l ∈ dom h1 -> h2 !! l = h1 !! l) /\
    (forall ctx' env' m', h !! env' = Some (OEnv m') ->
       exists h2 res' err',
         ValidateMapH ctx' v env' h1 = Some (h2, (res', err')) /\
         validate_post ctx' fs m' h1 h2 res' err' /\
         h2 !! v = Some (OFields fs) /\ h2 !! env = Some (OEnv m) /\
         h2 !! env' = Some (OEnv m') /\
         (forall l, res = Some l -> (h2 !! l = h1 !! l) /\ res' <> Some l)).
Proof.
  intros Hv Hm.
  destruct (ValidateMapH_post ctx v env h fs m Hv Hm)
    as (h1 & res & err & HV & Hpost).
  exists h1, res, err. split; [exact HV|]. split; [exact Hpost|].
  destruct Hpost as (Herr & Hres & Hframe).
  assert (forall l o, h !! l = Some o -> h1 !! l = Some o) as Hkeep.
  { intros l o Hl. rewrite Hframe; [done|]. apply elem_of_dom. eauto. }
  pose proof (Hkeep _ _ Hv) as Hv1. pose proof (Hkeep _ _ Hm) as Hm1.
  split; [exact Hv1|]. split; [exact Hm1|]. split.
  - exists (<[fresh (dom h1) := OSchema (describe <$> fs)]> h1), (fresh (dom h1)).
    split; [by apply SchemaH_spec|]. split; [apply is_fresh|].
    intros l Hl. by apply frame_insert_fresh.
  - intros ctx' env' m' Hm'. pose proof (Hkeep _ _ Hm') as Hm1'.
    destruct (ValidateMapH_post ctx' v env' h1 fs m' Hv1 Hm1')
      as (h2 & res' & err' & HV' & Hpost').
    exists h2, res', err'. split; [exact HV'|]. split; [exact Hpost'|].
    destruct Hpost' as (Herr' & Hres' & Hframe').
    assert (forall l o, h1 !! l = Some o -> h2 !! l = Some o) as Hkeep'.
    { intros l o Hl. rewrite Hframe'; [done|]. apply elem_of_dom. eauto. }
    split; [by apply Hkeep'|]. split; [by apply Hkeep'|].
    split; [by apply Hkeep'|].
    intros l ->. destruct Hres as (_ & r & _ & Hl).
    assert (l ∈ dom h1) as Hdom by (apply elem_of_dom; eauto).
    split; [by apply Hframe'|].
    intros ->. by destruct Hres' as [Hfresh _].
Qed.

(** C7. [Schema] never fails and returns one descriptor per declaration, in
    declaration order; the descriptor of a declaration carries its key, its
    kind (string when the kind is empty), its required flag, its default,
    its description, and its allowed values as a sequence that is never
    absent (empty when none were declared).  The output depends on the
    declarations only: after a [ValidateMap] call on any input map, and
    called any number of times, [Schema] yields this same sequence. *)
Theorem Schema_descriptors (v : Validator) :
  exists out,
    Schema v = Returns out /\
    length out = length (fields v) /\
    (forall i f, fields v !! i = Some f ->
       exists d, out !! i = Some d /\
         SKey d = Key f /\
         SKind d = (if String.eqb (FKind f) "" then "string" else FKind f) /\
         SRequired d = Required f /\
         SDefault d = Default f /\
         SDescription d = Description f /\
         SAllowedValues d = Some (elems (AllowedValues f))) /\
    (forall ctx (h : heap) vl env m,
       h !! vl = Some (OFields (fields v)) -> h !! env = Some (OEnv m) ->
       exists h1 r h2 o h3 o',
         ValidateMapH ctx vl env h = Some (h1, r) /\
         SchemaH vl h1 = Some (h2, o) /\ h2 !! o = Some (OSchema out) /\
         SchemaH vl h2 = Some (h3, o') /\ h3 !! o' = Some (OSchema out) /\
         h3 !! o = Some (OSchema out)).
Proof.
  exists (describe <$> fields v). split; [apply Schema_describe|].
  split; [apply length_fmap|]. split.
  - intros i f Hf. exists (describe f). rewrite list_lookup_fmap, Hf.
    split; [done|]. unfold describe. cbn.
    repeat split. by destruct (AllowedValues f).
  - intros ctx h vl env m Hv Hm.
    destruct (ValidateMapH_post ctx vl env h (fields v) m Hv Hm)
      as (h1 & res & err & HV & _ & _ & Hframe).
    assert (h1 !! vl = Some (OFields (fields v))) as Hv1.
    { rewrite Hframe; [done|]. apply elem_of_dom. eauto. }
    pose proof (SchemaH_spec vl h1 (fields v) Hv1) as HS1.
    set (h2 := <[fresh (dom h1) := OSchema (describe <$> fields v)]> h1) in *.
    assert (h2 !! fresh (dom h1) = Some (OSchema (describe <$> fields v)))
      as Ho by apply lookup_insert_eq.
    assert (h2 !! vl = Some (OFields (fields v))) as Hv2.
    { unfold h2. rewrite frame_insert_fresh; [done|]. apply elem_of_dom. eauto. }
    pose proof (SchemaH_spec vl h2 (fields v) Hv2) as HS2.
    do 6 eexists. split; [exact HV|]. split; [exact HS1|].
    split; [exact Ho|]. split; [exact HS2|].
    split; [apply lookup_insert_eq|].
    rewrite frame_insert_fresh; [exact Ho|]. apply elem_of_dom. eauto.
Qed.

End StoreClaims.

(** * The engine on concrete inputs

    The declarations and inputs of [validator_test.go], evaluated with the
    reference library functions. *)

Section Concrete.
Import RefLib.

Example test_DefaultApplied :
  exists r, ValidateMap Background (New [portField]) ∅ = (Some r, None)
            /\ Result_Integer r "PORT" = Returns 8080%Z.
Proof. eexists. split; reflexivity. Qed.

Example test_ProvidedValueOverridesDefault :
  exists r, ValidateMap Background (New [portField]) {[ "PORT" := "9090" ]}
            = (Some r, None)
            /\ Result_Integer r "PORT" = Returns 9090%Z.
Proof. eexists. split; reflexivity. Qed.

Example test_BooleanValues :
  parseValue "FEATURE_FLAG" KindBoolean "TRUE" = inl (VBool true)
  /\ parseValue "FEATURE_FLAG" KindBoolean "no" = inl (VBool false)
  /\ exists e, parseValue "FEATURE_FLAG" KindBoolean "maybe" = inr e.
Proof. repeat split. by eexists. Qed.

Example test_FloatKind :
  parseValue "RATIO" KindFloat "3.14" = inl (VFloat64 0x40091EB851EB851F%Z).
Proof. reflexivity. Qed.

Example test_URLKind :
  exists r, ValidateMap Background (New [apiField])
              {[ "API_URL" := "https://api.example.com" ]} = (Some r, None)
            /\ Result_String r "API_URL" = Returns "https://api.example.com".
Proof. eexists. split; reflexivity. Qed.

Example test_InvalidURL :
  exists ve, ValidateMap Background (New [apiField]) {[ "API_URL" := "not-a-url" ]}
             = (None, Some (EValidation ve)).
Proof. eexists. reflexivity. Qed.

Example test_DurationKind :
  exists r, ValidateMap Background
              (New [declare "TIMEOUT" KindDuration false "30s" None])
              {[ "TIMEOUT" := "2m" ]} = (Some r, None)
            /\ DurationResult r "TIMEOUT" = Returns (2 * 60 * 1000000000)%Z.
Proof. eexists. split; reflexivity. Qed.

Example test_AllowedValues :
  (exists ve, ValidateMap Background (New [levelField]) {[ "LOG_LEVEL" := "trace" ]}
              = (None, Some (EValidation ve)))
  /\ exists r, ValidateMap Background (New [levelField]) {[ "LOG_LEVEL" := "debug" ]}
               = (Some r, None)
               /\ Result_String r "LOG_LEVEL" = Returns "debug".
Proof. split; eexists; [|split]; reflexivity. Qed.

Example test_MultipleErrors :
  exists e1 e2,
    ValidateMap Background
      (New [declare "PORT" KindInteger true "" None;
            declare "DATABASE_URL" KindURL true "" None]) ∅
    = (None, Some (EValidation [e1; e2])).
Proof. do 2 eexists. reflexivity. Qed.

Example test_ContextCancellation :
  ValidateMap Cancelled (New [portField]) ∅ = (None, Some (EContext Canceled)).
Proof. reflexivity. Qed.

Example test_Schema :
  exists d0 d1, Schema service = Returns [d0; d1]
                /\ SKey d0 = "PORT" /\ SRequired d1 = true.
Proof. do 2 eexists. repeat split. Qed.

End Concrete.

Section ConcreteClaims.
Import RefLib.

(** C3. Two declarations of the key "A", both succeeding: the Result holds
    the value of the second declaration, not of the first; both failing:
    the batch holds the failures of both. *)
Theorem ValidateMap_duplicate_key :
  evalField ∅ dupFirst = inl (VString "x") /\
  evalField ∅ dupSecond = inl (VString "y") /\
  ValidateMap Background (New [dupFirst; dupSecond]) ∅
  = (Some {| values := {[ "A" := VString "y" ]} |}, None) /\
  ValidateMap Background (New [dupBadFirst; dupBadSecond]) ∅
  = (None,
     Some (EValidation
             [ {| EKey := "A";
                  Reason := "value " ++ quote "x"
                            ++ " is not one of the allowed values: q" |};
               {| EKey := "A";
                  Reason := "value " ++ quote "y"
                            ++ " is not one of the allowed values: q" |} ])).
Proof. repeat split. Qed.

(** C5. On the Result of a successful evaluation that stores a string under
    "A", the [Duration] method returns that string: the stored value is not
    a duration and there is no panic.  [DurationResult] panics there. *)
Theorem Result_Duration_returns_any_value :
  exists r,
    ValidateMap Background (New [dupFirst]) ∅ = (Some r, None) /\
    values r !! "A" = Some (VString "x") /\
    Result_Duration r "A" = Returns (VString "x") /\
    exists msg, DurationResult r "A" = Panics msg.
Proof. eexists. repeat split. by eexists. Qed.

(** C4, as stated, fails on the empty declaration list: the loop body, and
    with it the cancellation check, never runs, and an empty Result is
    returned although the signal is set. *)
Lemma ValidateMap_cancelled_no_fields :
  Done Cancelled 0 = true /\
  ValidateMap Cancelled (New []) ∅ = (Some {| values := ∅ |}, None) /\
  ValidateMap Cancelled (New []) ∅ <> (None, Some (EContext (ctxErr Cancelled))).
Proof. repeat split. discriminate. Qed.

(** C8, as stated, fails on a batch of one failure: the line is not the
    indentation followed by field "PORT": <reason>. *)
Lemma ValidationErrors_Error_not_bare_lines :
  ~ exists indent,
      blank indent = true /\
      ValidationErrors_Error [portError]
      = rendering_with_bare_lines indent [portError].
Proof.
  intros (indent & Hb & Heq). vm_compute in Heq.
  injection Heq as Heq.
  destruct indent as [|c1 [|c2 [|c3 r]]]; vm_compute in Heq;
    try discriminate Heq.
  injection Heq as <- <- <- _. vm_compute in Hb. discriminate Hb.
Qed.

(** C10, as stated, fails on fields with allowed values that exclude the
    empty string: a string field does not succeed, and an integer field
    fails with the allowed-values failure, not with the coercion failure. *)
Lemma evalField_empty_default_restricted :
  Required restricted = false /\ Default restricted = "" /\
  FKind restricted = KindString /\
  (∅ : gmap string string) !! Key restricted = None /\
  evalField ∅ restricted <> inl (VString "") /\
  evalField ∅ restrictedInt
  <> inr (parse_error (Key restrictedInt) "cannot parse " "" " as an integer").
Proof. repeat split; discriminate. Qed.

Lemma ValidateMap_batch_or_result_witness :
  live Background 0 (length (fields service)) /\
  exists r, ValidateMap Background service serviceEnv = (Some r, None)
            /\ dom (values r) = list_to_set (Key <$> fields service).
Proof.
  assert (live Background 0 (length (fields service))) as Hl.
  { intros i _. reflexivity. }
  split; [exact Hl|].
  destruct (ValidateMap_batch_or_result Background service serviceEnv Hl)
    as (_ & _ & [H _] & _).
  apply H. intros f Hf.
  apply elem_of_cons in Hf as [->|Hf];
    [|apply elem_of_cons in Hf as [->|Hf]; [|inversion Hf]];
    eexists; reflexivity.
Defined.

Lemma evalField_resolution_witness :
  serviceEnv !! Key portField = Some "9090" /\ "9090" <> "" /\
  evalField serviceEnv portField = inl (VInt64 9090).
Proof.
  split; [reflexivity|]. split; [discriminate|].
  rewrite (proj1 (evalField_resolution serviceEnv portField) "9090");
    [reflexivity | reflexivity | discriminate].
Defined.

Lemma ValidateMap_cancelled_witness :
  doneFrom Cancelled = Some 0%nat /\
  (0 < length (fields service))%nat /\
  ValidateMap Cancelled service serviceEnv = (None, Some (EContext Canceled)).
Proof.
  split; [reflexivity|]. split; [cbn; lia|].
  apply (ValidateMap_cancelled Cancelled service serviceEnv 0 eq_refl).
  cbn. lia.
Defined.

Lemma evalField_empty_default_witness :
  Required optionalInt = false /\ Default optionalInt = "" /\
  (∅ : gmap string string) !! Key optionalInt = None /\
  elems (AllowedValues optionalInt) = [] /\
  evalField ∅ optionalInt
  = inr (parse_error "N" "cannot parse " "" " as an integer").
Proof.
  repeat (split; [reflexivity|]).
  assert ((∅ : gmap string string) !! Key optionalInt = None
          \/ (∅ : gmap string string) !! Key optionalInt = Some "") as Habs.
  { left. reflexivity. }
  assert (elems (AllowedValues optionalInt) = []
          \/ "" ∈ elems (AllowedValues optionalInt)) as Hal.
  { left. reflexivity. }
  destruct (evalField_empty_default (Laws := ref_lib_laws) ∅ optionalInt
              eq_refl eq_refl Habs Hal)
    as (_ & H & _).
  exact (H eq_refl).
Defined.

Lemma parseValue_url_witness :
  parseValue "API_URL" KindURL " https://api.example.com "
  = inl (VString "https://api.example.com").
Proof.
  refine (proj1 (proj1 (parseValue_url "API_URL" " https://api.example.com ")) _).
  exists (mkURL "https" "api.example.com").
  split; [reflexivity|]. split; discriminate.
Defined.

Lemma ValidationErrors_Error_render_witness :
  [portError] <> [] /\
  ValidationErrors_Error [portError]
  = "1 environment variable validation error(s):" ++ nl
    ++ "  - env-validator: field " ++ quote "PORT"
    ++ ": required variable is missing or empty" ++ nl.
Proof.
  split; [discriminate|].
  rewrite (ValidationErrors_Error_render [portError]); [reflexivity|discriminate].
Defined.

Lemma ValidateMapH_frame_witness :
  serviceHeap !! 1%positive = Some (OFields (fields service)) /\
  serviceHeap !! 2%positive = Some (OEnv serviceEnv) /\
  exists h1 res err,
    ValidateMapH Background 1 2 serviceHeap = Some (h1, (res, err)) /\
    h1 !! 1%positive = Some (OFields (fields service)) /\
    h1 !! 2%positive = Some (OEnv serviceEnv).
Proof.
  split; [reflexivity|]. split; [reflexivity|].
  destruct (ValidateMapH_frame Background 1 2 serviceHeap (fields service)
              serviceEnv eq_refl eq_refl)
    as (h1 & res & err & HV & _ & Hv & He & _).
  exists h1, res, err. auto.
Defined.

Lemma Schema_descriptors_witness :
  serviceHeap !! 1%positive = Some (OFields (fields service)) /\
  serviceHeap !! 2%positive = Some (OEnv serviceEnv) /\
  exists out h1 r h2 o,
    Schema service = Returns out /\
    ValidateMapH Background 1 2 serviceHeap = Some (h1, r) /\
    SchemaH 1 h1 = Some (h2, o) /\ h2 !! o = Some (OSchema out).
Proof.
  split; [reflexivity|]. split; [reflexivity|].
  destruct (Schema_descriptors service) as (out & HS & _ & _ & H).
  destruct (H Background serviceHeap 1%positive 2%positive serviceEnv
              eq_refl eq_refl)
    as (h1 & r & h2 & o & _ & _ & HV & HS1 & Ho & _).
  exists out, h1, r, h2, o. auto.
Defined.

End ConcreteClaims.

(** * Further properties of the package *)

(** ** What the pass reads of the input map *)

Section InputFacts.
Context {L : GoLib}.

(** Two input maps that give a key the same value, an absent key counting
    as the empty string, are the same to the loop body. *)
Lemma evalField_agree env1 env2 f :
  default "" (env1 !! Key f) = default "" (env2 !! Key f) ->
  evalField env1 f = evalField env2 f.
Proof.
  unfold evalField, index2.
  destruct (env1 !! Key f) as [a|], (env2 !! Key f) as [b|];
    intros E; simpl in E; subst; reflexivity.
Qed.

Lemma rangeFields_agree ctx env1 env2 fs : forall poll errs vals,
  (forall f, f ∈ fs -> default "" (env1 !! Key f) = default "" (env2 !! Key f)) ->
  rangeFields ctx env1 poll fs errs vals = rangeFields ctx env2 poll fs errs vals.
Proof.
  induction fs as [|f rest IH]; intros poll errs vals Hag; [done|].
  cbn [rangeFields]. rewrite (evalField_agree env1 env2 f) by (apply Hag; by left).
  destruct (Done ctx poll); [done|].
  destruct (evalField env2 f); apply IH; intros g Hg; apply Hag; by right.
Qed.

(** What the loop of [Validate] leaves under a key. *)
Lemma collectEnv_lookup_gen getenv fs : forall env k,
  collectEnv getenv fs env !! k
  = if bool_decide (k ∈ Key <$> fs) && negb (String.eqb (getenv k) "")
    then Some (getenv k) else env !! k.
Proof.
  induction fs as [|f rest IH]; intros env k; cbn [collectEnv].
  - by rewrite fmap_nil, bool_decide_eq_false_2 by (intros H; inversion H).
  - rewrite IH, fmap_cons. destruct (decide (k = Key f)) as [->|Hne].
    + rewrite (bool_decide_eq_true_2 (Key f ∈ Key f :: (Key <$> rest)))
        by (by left).
      destruct (String.eqb (getenv (Key f)) ""); cbn [negb andb].
      * by rewrite andb_false_r.
      * rewrite andb_true_r, lookup_insert_eq. by destruct (bool_decide _).
    + rewrite (bool_decide_ext (k ∈ Key f :: (Key <$> rest)) (k ∈ Key <$> rest)).
      2:{ rewrite elem_of_cons. naive_solver. }
      assert ((if negb (String.eqb (getenv (Key f)) "")
               then <[Key f := getenv (Key f)]> env else env) !! k = env !! k)
        as ->; [|done].
      destruct (negb (String.eqb (getenv (Key f)) "")); [|done].
      by apply lookup_insert_ne.
Qed.

Lemma collectEnv_default getenv fs f :
  f ∈ fs ->
  default "" (collectEnv getenv fs ∅ !! Key f) = getenv (Key f).
Proof.
  intros Hf. rewrite collectEnv_lookup_gen.
  rewrite bool_decide_eq_true_2 by (apply list_elem_of_fmap; eauto).
  cbn [andb]. destruct (String.eqb_spec (getenv (Key f)) "") as [->|_]; done.
Qed.

(** X1. [ValidateMap] reads the input map only at the declared keys, and an
    absent key is the same to it as a key mapped to the empty string: two
    input maps that agree in this sense on every declared key give the same
    outcome, whatever the context. *)
Theorem ValidateMap_env_agree (ctx : Context) (v : Validator)
    (env1 env2 : gmap string string) :
  (forall f, f ∈ fields v ->
     default "" (env1 !! Key f) = default "" (env2 !! Key f)) ->
  ValidateMap ctx v env1 = ValidateMap ctx v env2.
Proof.
  intros Hag. unfold ValidateMap.
  by rewrite (rangeFields_agree ctx env1 env2).
Qed.

(** X2. The map that [Validate] builds from the process environment holds
    a value under a key exactly when the key is declared and its variable
    is set to that value and is not empty: no undeclared variable and no
    empty value reaches [ValidateMap]. *)
Theorem collectEnv_lookup (getenv : string -> string) (fs : list Field)
    (k val : string) :
  collectEnv getenv fs ∅ !! k = Some val
  <-> (exists f, f ∈ fs /\ Key f = k) /\ getenv k = val /\ val <> "".
Proof.
  rewrite collectEnv_lookup_gen, lookup_empty.
  destruct (bool_decide (k ∈ Key <$> fs)) eqn:Hk; cbn [andb].
  - apply bool_decide_eq_true_1, list_elem_of_fmap in Hk as (f & -> & Hf).
    destruct (String.eqb_spec (getenv (Key f)) "") as [E|E]; cbn [negb].
    + split; [done|]. intros (_ & <- & H). done.
    + split.
      * intros [= <-]. eauto.
      * intros (_ & <- & _). done.
  - apply bool_decide_eq_false_1 in Hk. split; [done|].
    intros ((f & Hf & <-) & _). destruct Hk. apply list_elem_of_fmap. eauto.
Qed.

(** X3. [Validate] is [ValidateMap] on the process environment: for every
    map that holds, under each declared key, the value of the variable (or
    nothing, or the empty string, when the variable is unset or empty),
    both return the same outcome. *)
Theorem Validate_is_ValidateMap (ctx : Context) (v : Validator)
    (getenv : string -> string) (m : gmap string string) :
  (forall f, f ∈ fields v -> default "" (m !! Key f) = getenv (Key f)) ->
  Validate ctx v getenv = ValidateMap ctx v m.
Proof.
  intros Hm. unfold Validate, ValidateMap. cbv zeta.
  rewrite (rangeFields_agree ctx _ m); [done|].
  intros f Hf. by rewrite collectEnv_default, Hm.
Qed.

End InputFacts.

(** ** Outcomes of a pass under any context *)

Section OutcomeFacts.
Context {L : GoLib}.

(** A loop that reaches its end has met no closed [Done] channel. *)
Lemma rangeFields_inr ctx env fs : forall poll errs vals errs' vals',
  rangeFields ctx env poll fs errs vals = inr (errs', vals') ->
  errs' = (errs ++ failures env fs)%list /\ vals' = stored env fs vals.
Proof.
  induction fs as [|f rest IH]; intros poll errs vals errs' vals' H.
  - cbn in H. injection H as <- <-. by rewrite app_nil_r.
  - cbn [rangeFields] in H. destruct (Done ctx poll); [done|].
    rewrite failures_cons. cbn [stored fold_left].
    destruct (evalField env f) as [x|e]; apply IH in H as [-> ->].
    + done.
    + by rewrite <- app_assoc.
Qed.

Lemma rangeFields_inl ctx env fs : forall poll errs vals c,
  rangeFields ctx env poll fs errs vals = inl c ->
  c = ctxErr ctx /\ exists n, doneFrom ctx = Some n /\ (n < poll + length fs)%nat.
Proof.
  induction fs as [|f rest IH]; intros poll errs vals c H; [done|].
  cbn [rangeFields] in H. destruct (Done ctx poll) eqn:Hd.
  - injection H as <-. split; [done|]. unfold Done in Hd.
    destruct (doneFrom ctx) as [n|]; [|done].
    exists n. split; [done|]. apply Nat.leb_le in Hd. cbn [length]. lia.
  - destruct (evalField env f); apply IH in H as (-> & n & Hn & Hlt);
      (split; [done|]); exists n; (split; [done|]); cbn [length]; lia.
Qed.

Lemma ValidateMap_inv_result ctx v env r err :
  ValidateMap ctx v env = (Some r, err) ->
  err = None /\ failures env (fields v) = []
  /\ values r = stored env (fields v) ∅.
Proof.
  unfold ValidateMap.
  destruct (rangeFields ctx env 0 (fields v) [] ∅) as [c|[errs vals]] eqn:E;
    [done|].
  apply rangeFields_inr in E as [-> ->]. rewrite app_nil_l.
  destruct (failures env (fields v)); [|done].
  cbn. by intros [= <- <-].
Qed.

Lemma ValidateMap_inv_batch ctx v env r ve :
  ValidateMap ctx v env = (r, Some (EValidation ve)) ->
  r = None /\ ve = failures env (fields v) /\ ve <> [].
Proof.
  unfold ValidateMap.
  destruct (rangeFields ctx env 0 (fields v) [] ∅) as [c|[errs vals]] eqn:E;
    [done|].
  apply rangeFields_inr in E as [-> ->]. rewrite app_nil_l.
  destruct (failures env (fields v)) as [|e0 errs]; [done|].
  cbn. by intros [= <- <-].
Qed.

(** Every failure that [parseValue] returns names the key it was given. *)
Lemma parseValue_key key kind raw e :
  parseValue key kind raw = inr e -> EKey e = key.
Proof.
  unfold parseValue, parse_error.
  repeat case_match; intros [= <-]; reflexivity.
Qed.

Lemma evalField_key env f e : evalField env f = inr e -> EKey e = Key f.
Proof.
  unfold evalField, check_and_parse.
  repeat case_match; try (intros [= <-]; reflexivity); apply parseValue_key.
Qed.

Lemma failures_keys_sublist env fs :
  sublist (EKey <$> failures env fs) (Key <$> fs).
Proof.
  induction fs as [|f rest IH]; [constructor|].
  rewrite failures_cons, !fmap_cons.
  destruct (evalField env f) as [x|e] eqn:E.
  - by apply sublist_cons.
  - rewrite fmap_cons, (evalField_key env f e E). by apply sublist_skip.
Qed.

(** X4. The keys of a returned batch, in batch order, form a subsequence
    of the declared keys in declaration order: every failure names a
    declared key, each declaration contributes at most one failure, and
    the order of the batch is the order of the declarations, not of the
    input map.  A batch is never empty and never accompanies a Result. *)
Theorem ValidateMap_batch_keys (ctx : Context) (v : Validator)
    (env : gmap string string) (r : option Result) (ve : ValidationErrors) :
  ValidateMap ctx v env = (r, Some (EValidation ve)) ->
  sublist (EKey <$> ve) (Key <$> fields v)
  /\ (0 < length ve <= length (fields v))%nat
  /\ r = None.
Proof.
  intros (-> & -> & Hne)%ValidateMap_inv_batch.
  pose proof (failures_keys_sublist env (fields v)) as Hs.
  split; [exact Hs|]. split; [|done].
  apply sublist_length in Hs. rewrite !length_fmap in Hs.
  destruct (failures env (fields v)); [done|]. cbn [length] in *. lia.
Qed.

(** X5. The outcome of [ValidateMap] has one of three shapes, whatever the
    context: a Result and no error; no Result and a non-empty batch; no
    Result and the context's error.  The last one is returned exactly when
    the [Done] channel is found closed at the check of some declaration,
    that is before the pass reaches the end of the list. *)
Theorem ValidateMap_outcomes (ctx : Context) (v : Validator)
    (env : gmap string string) :
  ((exists r, ValidateMap ctx v env = (Some r, None))
   \/ (exists ve, ve <> [] /\ ValidateMap ctx v env = (None, Some (EValidation ve)))
   \/ ValidateMap ctx v env = (None, Some (EContext (ctxErr ctx))))
  /\ ((exists c, ValidateMap ctx v env = (None, Some (EContext c)))
      <-> exists n, doneFrom ctx = Some n /\ (n < length (fields v))%nat).
Proof.
  split.
  - unfold ValidateMap.
    destruct (rangeFields ctx env 0 (fields v) [] ∅) as [c|[errs vals]] eqn:E.
    + apply rangeFields_inl in E as [-> _]. by right; right.
    + destruct errs as [|e0 errs]; cbn.
      * left. by eexists.
      * right; left. exists (e0 :: errs). by split.
  - split.
    + intros [c Hc]. unfold ValidateMap in Hc.
      destruct (rangeFields ctx env 0 (fields v) [] ∅) as [c'|[errs vals]] eqn:E.
      * apply rangeFields_inl in E as (_ & n & Hn & Hlt). eauto.
      * by destruct (0 <? length errs)%nat.
    + intros (n & Hn & Hlt). exists (ctxErr ctx). unfold ValidateMap.
      rewrite (rangeFields_cancelled ctx env n) by (auto; lia). done.
Qed.

(** A field that succeeds was coerced by [parseValue] from its resolved raw
    value, which passed the allowed-values check. *)
Lemma evalField_inl env f x :
  evalField env f = inl x ->
  parseValue (Key f) (resolve_kind f) (resolved env f) = inl x
  /\ (elems (AllowedValues f) = [] \/ resolved env f ∈ elems (AllowedValues f))
  /\ (Required f = true -> Default f = "" ->
      exists raw, env !! Key f = Some raw /\ raw <> "").
Proof.
  unfold evalField, index2, resolved.
  assert (forall raw, check_and_parse f (resolve_kind f) raw = inl x ->
            parseValue (Key f) (resolve_kind f) raw = inl x
            /\ (elems (AllowedValues f) = []
                \/ raw ∈ elems (AllowedValues f))) as Hcp.
  { intros raw. unfold check_and_parse.
    destruct (elems (AllowedValues f)) as [|a l] eqn:Ea; [by auto|].
    cbn [length Nat.ltb Nat.leb andb].
    destruct (found_in raw (a :: l)) eqn:Hf; cbn [negb]; [|done].
    apply found_in_spec in Hf. auto. }
  destruct (env !! Key f) as [raw|]; cbn [negb orb].
  - destruct (String.eqb_spec raw "") as [->|Hne].
    + destruct (Required f), (String.eqb_spec (Default f) "");
        cbn [andb]; try done; intros (? & ?)%Hcp; repeat split; auto; done.
    + intros (? & ?)%Hcp. repeat split; eauto.
  - destruct (Required f), (String.eqb_spec (Default f) "");
      cbn [andb]; try done; intros (? & ?)%Hcp; repeat split; auto; done.
Qed.

(** The dynamic type of a parsed value is the one of its kind. *)
Lemma parseValue_inl key kind raw x :
  parseValue key kind raw = inl x ->
  (kind = KindString /\ x = VString raw)
  \/ (kind = KindInteger /\ exists n, ParseInt (TrimSpace raw) = Some n
                                     /\ x = VInt64 n)
  \/ (kind = KindFloat /\ exists b, ParseFloat (TrimSpace raw) = Some b
                                    /\ x = VFloat64 b)
  \/ (kind = KindBoolean /\ exists b, x = VBool b)
  \/ (kind = KindURL /\ x = VString (TrimSpace raw))
  \/ (kind = KindDuration /\ exists d, ParseDuration (TrimSpace raw) = Some d
                                       /\ x = VDuration d).
Proof.
  unfold parseValue.
  destruct (String.eqb_spec kind KindString) as [->|_].
  { intros [= <-]. by left. }
  destruct (String.eqb_spec kind KindInteger) as [->|_].
  { destruct (ParseInt (TrimSpace raw)) as [n|]; [|done].
    intros [= <-]. right; left. eauto. }
  destruct (String.eqb_spec kind KindFloat) as [->|_].
  { destruct (ParseFloat (TrimSpace raw)) as [b|]; [|done].
    intros [= <-]. do 2 right; left. eauto. }
  destruct (String.eqb_spec kind KindBoolean) as [->|_].
  { repeat case_match; try done; intros [= <-]; do 3 right; left; eauto. }
  destruct (String.eqb_spec kind KindURL) as [->|_].
  { repeat case_match; try done; intros [= <-]; do 4 right; left; eauto. }
  destruct (String.eqb_spec kind KindDuration) as [->|_]; [|done].
  destruct (ParseDuration (TrimSpace raw)) as [d|]; [|done].
  intros [= <-]. do 5 right. eauto.
Qed.

(** X6. A declaration whose kind is neither empty nor one of the six kinds
    fails on every input, with a failure that names its key; a validator
    that holds such a declaration never returns a Result. *)
Theorem unknown_kind_never_succeeds (ctx : Context) (v : Validator)
    (env : gmap string string) (f : Field) :
  f ∈ fields v -> FKind f <> "" -> FKind f ∉ known_kinds ->
  (exists e, evalField env f = inr e /\ EKey e = Key f)
  /\ forall r err, ValidateMap ctx v env <> (Some r, err).
Proof.
  intros Hf Hne Hk.
  assert (exists e, evalField env f = inr e) as [e He].
  { destruct (evalField env f) as [x|e] eqn:E; [|by eauto].
    apply evalField_inl in E as (Hp & _). exfalso.
    assert (resolve_kind f = FKind f) as Hrk.
    { unfold resolve_kind. apply String.eqb_neq in Hne. by rewrite Hne. }
    rewrite Hrk in Hp. apply Hk. unfold known_kinds.
    apply parseValue_inl in Hp
      as [[-> _]|[[-> _]|[[-> _]|[[-> _]|[[-> _]|[-> _]]]]]];
      set_solver. }
  split; [exists e; split; [done|by apply (evalField_key env)]|].
  intros r err (_ & Hnil & _)%ValidateMap_inv_result.
  destruct (proj1 (failures_nil_iff env (fields v)) Hnil f Hf) as [x Hx].
  congruence.
Qed.

End OutcomeFacts.

(** ** What a Result holds *)

Section ResultFacts.
Context {L : GoLib}.

(** A value in the map comes from the initial map or from a declaration of
    that key which succeeded with it. *)
Lemma stored_lookup env fs k x : forall vals,
  stored env fs vals !! k = Some x ->
  vals !! k = Some x
  \/ exists g, g ∈ fs /\ Key g = k /\ evalField env g = inl x.
Proof.
  induction fs as [|f rest IH]; intros vals H; [by left|].
  cbn [stored fold_left] in H.
  fold (stored env rest (match evalField env f with
                         | inl v => <[Key f := v]> vals
                         | inr _ => vals
                         end)) in H.
  apply IH in H as [H|(g & Hg & Hk & He)].
  - destruct (evalField env f) as [y|e] eqn:E; [|by left].
    destruct (decide (Key f = k)) as [Hk|Hk].
    + subst k. rewrite lookup_insert_eq in H. injection H as ->.
      right. exists f. split; [by left|]. done.
    + rewrite lookup_insert_ne in H by done. by left.
  - right. exists g. split; [by right|]. done.
Qed.

(** On success, the value under the key of a declaration which is the only
    one of its key is the coercion of its resolved raw value. *)
Lemma result_value ctx v env r err f :
  ValidateMap ctx v env = (Some r, err) ->
  f ∈ fields v ->
  (forall g, g ∈ fields v -> Key g = Key f -> g = f) ->
  exists x, values r !! Key f = Some x /\ evalField env f = inl x.
Proof.
  intros (_ & Hnil & Hv)%ValidateMap_inv_result Hf Huniq.
  assert (Key f ∈ dom (values r)) as Hdom.
  { rewrite Hv, dom_stored by done.
    apply elem_of_union_r, elem_of_list_to_set, list_elem_of_fmap. eauto. }
  apply elem_of_dom in Hdom as [x Hx]. exists x. split; [done|].
  rewrite Hv in Hx. apply stored_lookup in Hx as [Hx|(g & Hg & Hk & He)].
  - by rewrite lookup_empty in Hx.
  - by rewrite <- (Huniq g Hg Hk).
Qed.

(** X7. On success, the Result holds under the key of a declaration (the
    only one of its key) the coercion, by the declaration's kind, of the
    input value when that is present and not empty, and of the default
    otherwise; when allowed values are declared, that raw value is one of
    them. *)
Theorem ValidateMap_result_value (ctx : Context) (v : Validator)
    (env : gmap string string) (r : Result) (err : option error) (f : Field) :
  ValidateMap ctx v env = (Some r, err) ->
  f ∈ fields v ->
  (forall g, g ∈ fields v -> Key g = Key f -> g = f) ->
  exists x,
    values r !! Key f = Some x
    /\ parseValue (Key f) (resolve_kind f) (resolved env f) = inl x
    /\ (elems (AllowedValues f) = []
        \/ resolved env f ∈ elems (AllowedValues f)).
Proof.
  intros HV Hf Huniq.
  destruct (result_value ctx v env r err f HV Hf Huniq) as (x & Hx & He).
  exists x. split; [done|]. by apply evalField_inl in He as (? & ? & _).
Qed.

(** X8. A Result is returned only if every required declaration without a
    default found a non-empty value in the input map. *)
Theorem ValidateMap_required_provided (ctx : Context) (v : Validator)
    (env : gmap string string) (r : Result) (err : option error) (f : Field) :
  ValidateMap ctx v env = (Some r, err) ->
  f ∈ fields v -> Required f = true -> Default f = "" ->
  exists raw, env !! Key f = Some raw /\ raw <> "".
Proof.
  intros (_ & Hnil & _)%ValidateMap_inv_result Hf Hr Hd.
  destruct (proj1 (failures_nil_iff env (fields v)) Hnil f Hf) as [x Hx].
  apply evalField_inl in Hx as (_ & _ & H). by apply H.
Qed.

Ltac kind_clash :=
  match goal with
  | H : resolve_kind _ = _, H' : resolve_kind _ = _ |- _ =>
      rewrite H in H'; discriminate H'
  end.

(** X9. After a successful evaluation, the typed accessor that matches the
    kind of a declaration (the only one of its key) returns and does not
    panic: [String] returns the raw value unchanged for kind string and the
    trimmed raw value for kind url; [Integer], [Float], [Boolean] and
    [DurationResult] return the value that the library parser gave. *)
Theorem typed_getter_returns (ctx : Context) (v : Validator)
    (env : gmap string string) (r : Result) (err : option error) (f : Field) :
  ValidateMap ctx v env = (Some r, err) ->
  f ∈ fields v ->
  (forall g, g ∈ fields v -> Key g = Key f -> g = f) ->
  (resolve_kind f = KindString ->
     Result_String r (Key f) = Returns (resolved env f)) /\
  (resolve_kind f = KindURL ->
     Result_String r (Key f) = Returns (TrimSpace (resolved env f))) /\
  (resolve_kind f = KindInteger ->
     exists n, Result_Integer r (Key f) = Returns n
               /\ ParseInt (TrimSpace (resolved env f)) = Some n) /\
  (resolve_kind f = KindFloat ->
     exists b, Result_Float r (Key f) = Returns b
               /\ ParseFloat (TrimSpace (resolved env f)) = Some b) /\
  (resolve_kind f = KindBoolean ->
     exists b, Result_Boolean r (Key f) = Returns b) /\
  (resolve_kind f = KindDuration ->
     exists d, DurationResult r (Key f) = Returns d
               /\ ParseDuration (TrimSpace (resolved env f)) = Some d).
Proof.
  intros HV Hf Huniq.
  destruct (result_value ctx v env r err f HV Hf Huniq) as (x & Hx & He).
  apply evalField_inl in He as (Hp & _).
  unfold Result_String, Result_Integer, Result_Float, Result_Boolean,
    DurationResult, Result_Raw.
  rewrite Hx. cbn [negb].
  apply parseValue_inl in Hp
    as [[Hk ->]|[[Hk (n & Hn & ->)]|[[Hk (b & Hb & ->)]|[[Hk (b & ->)]
       |[[Hk ->]|[Hk (d & Hd & ->)]]]]]];
    repeat split; intros Hk'; try kind_clash; eauto.
Qed.

(** X10. The keys of a Result are exactly the keys that [Schema] lists,
    and a Result is returned only if every kind that [Schema] lists is one
    of the six kinds; [Schema] never lists an empty kind. *)
Theorem Schema_matches_Result (v : Validator) (out : list FieldSchema) :
  Schema v = Returns out ->
  (forall d, d ∈ out -> SKind d <> "") /\
  (forall ctx env r err,
     ValidateMap ctx v env = (Some r, err) ->
     dom (values r) = list_to_set (SKey <$> out)
     /\ forall d, d ∈ out -> SKind d ∈ known_kinds).
Proof.
  rewrite Schema_describe. intros [= <-].
  assert (forall f, SKind (describe f) = resolve_kind f) as Hkind by done.
  split.
  - intros d (f & -> & Hf)%list_elem_of_fmap. rewrite Hkind.
    unfold resolve_kind. by destruct (String.eqb_spec (FKind f) "").
  - intros ctx env r err (_ & Hnil & Hv)%ValidateMap_inv_result. split.
    + rewrite Hv, dom_stored by done. rewrite <- list_fmap_compose.
      rewrite dom_empty_L, (left_id_L ∅ (∪)). done.
    + intros d (f & -> & Hf)%list_elem_of_fmap. rewrite Hkind.
      destruct (proj1 (failures_nil_iff env (fields v)) Hnil f Hf) as [x Hx].
      apply evalField_inl in Hx as (Hp & _). unfold known_kinds.
      apply parseValue_inl in Hp
        as [[-> _]|[[-> _]|[[-> _]|[[-> _]|[[-> _]|[-> _]]]]]];
        set_solver.
Qed.

End ResultFacts.

(** ** Failures *)

Section FailureFacts.
Context {L : GoLib}.


Lemma string_app_nil (a b : string) : a ++ b = "" -> a = "" /\ b = "".
Proof. destruct a; [done|]. rewrite string_app_cons. done. Qed.

(** X12. The rendering of a batch is the empty string exactly when the
    batch is empty. *)
Theorem ValidationErrors_Error_empty (ve : ValidationErrors) :
  ValidationErrors_Error ve = "" <-> ve = [].
Proof.
  split; [|by intros ->].
  destruct ve as [|e ve]; [done|]. unfold ValidationErrors_Error.
  cbn [length Nat.eqb]. rewrite fold_left_lines.
  intros [[_ [H _]%string_app_nil]%string_app_nil _]%string_app_nil.
  discriminate H.
Qed.

Lemma live_le ctx n m : live ctx 0 n -> (m <= n)%nat -> live ctx 0 m.
Proof. intros Hl Hle i Hi. apply Hl. lia. Qed.

Lemma batch_of_live ctx fs env :
  live ctx 0 (length fs) ->
  batch_of (ValidateMap ctx (New fs) env) = failures env fs.
Proof.
  intros Hl. rewrite ValidateMap_live by done. cbn [fields New].
  by destruct (failures env fs).
Qed.

(** X13. The failures of a validator over a concatenated declaration list
    are the failures of the first part followed by those of the second, in
    calls that are not cancelled: declaring more fields never removes or
    reorders a failure. *)
Theorem ValidateMap_batch_app (ctx : Context) (fs gs : list Field)
    (env : gmap string string) :
  live ctx 0 (length (fs ++ gs)%list) ->
  batch_of (ValidateMap ctx (New (fs ++ gs)%list) env)
  = (batch_of (ValidateMap ctx (New fs) env)
     ++ batch_of (ValidateMap ctx (New gs) env))%list.
Proof.
  intros Hl. rewrite length_app in Hl.
  rewrite !batch_of_live;
    [|eapply live_le; [exact Hl|lia] ..|by rewrite length_app].
  unfold failures. apply omap_app.
Qed.

End FailureFacts.

(** ** Accessors *)

Section AccessorFacts.
Context {L : GoLib}.

(** X14. For a key that the Result holds, exactly one of the accessors
    [String], [Integer], [Float], [Boolean] and [DurationResult] returns and
    the other four panic, while [Raw] returns the value with a true flag.
    For a key that the Result does not hold, all of them and [Duration]
    panic with the not-declared message, and [Raw] returns nil with a false
    flag. *)
Theorem typed_getters_exclusive (r : Result) (key : string) :
  (forall x, values r !! key = Some x ->
     (returned (Result_String r key) + returned (Result_Integer r key)
      + returned (Result_Float r key) + returned (Result_Boolean r key)
      + returned (DurationResult r key) = 1)%nat
     /\ Result_Raw r key = (Some x, true)) /\
  (values r !! key = None ->
     Result_String r key = Panics (not_declared key)
     /\ Result_Integer r key = Panics (not_declared key)
     /\ Result_Float r key = Panics (not_declared key)
     /\ Result_Boolean r key = Panics (not_declared key)
     /\ Result_Duration r key = Panics (not_declared key)
     /\ DurationResult r key = Panics (not_declared key)
     /\ Result_Raw r key = (None, false)).
Proof.
  unfold Result_String, Result_Integer, Result_Float, Result_Boolean,
    Result_Duration, DurationResult, Result_Raw.
  split.
  - intros x ->. by destruct x.
  - intros ->. repeat split.
Qed.

End AccessorFacts.

(** ** Trimming and duplicate keys *)

Section MoreFieldFacts.
Context {L : GoLib}.

(** X15. For every kind other than string, [parseValue] reads the raw
    value only through [strings.TrimSpace]: two raw values with the same
    trimmed form succeed together, with the same value, or fail together.
    For kind string the raw value is kept as it is. *)
Theorem parseValue_trimmed (key : string) (kind : Kind) (a b : string) :
  TrimSpace a = TrimSpace b -> kind <> KindString ->
  (forall x, parseValue key kind a = inl x <-> parseValue key kind b = inl x)
  /\ parseValue key KindString a = inl (VString a).
Proof.
  intros Ht Hk. split; [|reflexivity]. intros x.
  unfold parseValue. apply String.eqb_neq in Hk. rewrite Hk, Ht.
  repeat case_match; done.
Qed.

(** X16. With several declarations of one key, a Result holds under that
    key the value of the last of them: each declaration writes the map in
    turn and a later write replaces an earlier one. *)
Theorem ValidateMap_last_declaration (ctx : Context) (pre post : list Field)
    (f : Field) (env : gmap string string) (r : Result) (err : option error) :
  ValidateMap ctx (New (pre ++ f :: post)%list) env = (Some r, err) ->
  (forall g, g ∈ post -> Key g <> Key f) ->
  exists x, evalField env f = inl x /\ values r !! Key f = Some x.
Proof.
  intros (_ & Hnil & Hv)%ValidateMap_inv_result Hpost. cbn [fields New] in *.
  destruct (proj1 (failures_nil_iff env _) Hnil f) as [x Hx].
  { apply elem_of_app. right. by left. }
  exists x. split; [done|]. rewrite Hv. by apply stored_last_wins.
Qed.

End MoreFieldFacts.

(** ** The further properties on concrete inputs *)

Section ConcreteFurther.
Import RefLib.

Lemma service_port_unique :
  forall g, g ∈ fields service -> Key g = Key portField -> g = portField.
Proof.
  intros g Hg Hk.
  apply elem_of_cons in Hg as [->|Hg]; [reflexivity|].
  apply elem_of_cons in Hg as [->|Hg]; [discriminate Hk|inversion Hg].
Defined.

Lemma service_runs :
  ValidateMap Background service serviceEnv
  = (Some {| values := {[ "PORT" := VInt64 9090;
                          "API_URL" := VString "https://api.example.com" ]} |},
     None).
Proof. reflexivity. Defined.

Lemma ValidateMap_env_agree_witness :
  ValidateMap Background service serviceEnv
  = ValidateMap Background service
      (<["HOME" := "/root"]> (<["EXTRA" := ""]> serviceEnv)).
Proof.
  apply ValidateMap_env_agree. intros f Hf.
  apply elem_of_cons in Hf as [->|Hf]; [reflexivity|].
  apply elem_of_cons in Hf as [->|Hf]; [reflexivity|inversion Hf].
Defined.

Lemma collectEnv_lookup_witness :
  collectEnv serviceGetenv (fields service) ∅ !! "PORT" = Some "9090"
  /\ collectEnv serviceGetenv (fields service) ∅ !! "HOME" = None.
Proof.
  split.
  - apply (proj2 (collectEnv_lookup serviceGetenv (fields service) "PORT" "9090")).
    split; [exists portField; split; [by left|reflexivity]|].
    split; [reflexivity|discriminate].
  - destruct (collectEnv serviceGetenv (fields service) ∅ !! "HOME")
      as [val|] eqn:E; [|reflexivity].
    apply collectEnv_lookup in E as ((f & Hf & Hk) & _). exfalso.
    apply elem_of_cons in Hf as [->|Hf]; [discriminate Hk|].
    apply elem_of_cons in Hf as [->|Hf]; [discriminate Hk|inversion Hf].
Defined.

Lemma Validate_is_ValidateMap_witness :
  Validate Background service serviceGetenv
  = ValidateMap Background service serviceEnv.
Proof.
  apply Validate_is_ValidateMap. intros f Hf.
  apply elem_of_cons in Hf as [->|Hf]; [reflexivity|].
  apply elem_of_cons in Hf as [->|Hf]; [reflexivity|inversion Hf].
Defined.

Lemma ValidateMap_batch_keys_witness :
  exists ve,
    ValidateMap Background service {[ "PORT" := "80a" ]}
    = (None, Some (EValidation ve))
    /\ sublist (EKey <$> ve) (Key <$> fields service)
    /\ (0 < length ve <= length (fields service))%nat.
Proof.
  assert (exists ve, ValidateMap Background service {[ "PORT" := "80a" ]}
                     = (None, Some (EValidation ve))) as [ve Hve].
  { eexists. reflexivity. }
  exists ve. split; [exact Hve|].
  destruct (ValidateMap_batch_keys Background service {[ "PORT" := "80a" ]}
              None ve Hve) as (Hs & Hl & _).
  split; [exact Hs|exact Hl].
Defined.

Lemma ValidateMap_outcomes_witness :
  exists n, doneFrom Cancelled = Some n /\ (n < length (fields service))%nat.
Proof.
  apply (proj1 (proj2 (ValidateMap_outcomes Cancelled service serviceEnv))).
  exists Canceled. reflexivity.
Defined.

Lemma unknown_kind_never_succeeds_witness :
  oddField ∈ fields (New [portField; oddField])
  /\ FKind oddField <> ""
  /\ (FKind oddField ∉ known_kinds)
  /\ forall r err,
       ValidateMap Background (New [portField; oddField]) ∅ <> (Some r, err).
Proof.
  assert (oddField ∈ fields (New [portField; oddField])) as Hin.
  { right. left. }
  assert (FKind oddField <> "") as Hne by discriminate.
  assert (FKind oddField ∉ known_kinds) as Hk.
  { intros H. repeat (apply elem_of_cons in H as [H|H]; [discriminate H|]).
    inversion H. }
  repeat (split; [assumption|]).
  apply (unknown_kind_never_succeeds Background _ ∅ oddField Hin Hne Hk).
Defined.

Lemma ValidateMap_result_value_witness :
  exists x, values {| values := {[ "PORT" := VInt64 9090;
                                   "API_URL" := VString "https://api.example.com" ]} |}
              !! Key portField = Some x
            /\ parseValue "PORT" KindInteger "9090" = inl x.
Proof.
  destruct (ValidateMap_result_value Background service serviceEnv _ _ portField
              service_runs (list_elem_of_here _ _) service_port_unique)
    as (x & Hx & Hp & _).
  exists x. split; [exact Hx|exact Hp].
Defined.

Lemma ValidateMap_required_provided_witness :
  exists raw, serviceEnv !! Key apiField = Some raw /\ raw <> "".
Proof.
  refine (ValidateMap_required_provided Background service serviceEnv _ _
            apiField service_runs _ eq_refl eq_refl).
  right. left.
Defined.

Lemma typed_getter_returns_witness :
  exists n,
    Result_Integer
      {| values := {[ "PORT" := VInt64 9090;
                      "API_URL" := VString "https://api.example.com" ]} |}
      "PORT" = Returns n
    /\ parse_int (trim_space "9090") = Some n.
Proof.
  destruct (typed_getter_returns Background service serviceEnv _ _ portField
              service_runs (list_elem_of_here _ _) service_port_unique)
    as (_ & _ & H & _).
  exact (H eq_refl).
Defined.

Lemma Schema_matches_Result_witness :
  exists out,
    Schema service = Returns out
    /\ dom ({[ "PORT" := VInt64 9090;
               "API_URL" := VString "https://api.example.com" ]}
            : gmap string Value)
       = list_to_set (SKey <$> out).
Proof.
  eexists. split; [reflexivity|].
  destruct (Schema_matches_Result service _ eq_refl) as (_ & H).
  destruct (H Background serviceEnv _ _ service_runs) as (Hd & _).
  exact Hd.
Defined.


Lemma ValidationErrors_Error_empty_witness :
  ValidationErrors_Error [portError] <> "".
Proof.
  intros H. apply ValidationErrors_Error_empty in H. discriminate H.
Defined.

Lemma ValidateMap_batch_app_witness :
  live Background 0 (length ([declare "PORT" KindInteger true "" None]
                             ++ [apiField])%list)
  /\ length (batch_of (ValidateMap Background
                         (New ([declare "PORT" KindInteger true "" None]
                               ++ [apiField])%list) ∅)) = 2%nat.
Proof.
  assert (live Background 0
            (length ([declare "PORT" KindInteger true "" None]
                     ++ [apiField])%list)) as Hl.
  { intros i _. reflexivity. }
  split; [exact Hl|].
  rewrite (ValidateMap_batch_app Background _ _ ∅ Hl). reflexivity.
Defined.

Lemma typed_getters_exclusive_witness :
  Result_Raw {| values := {[ "PORT" := VInt64 9090 ]} |} "PORT"
  = (Some (VInt64 9090), true).
Proof.
  assert (values {| values := {[ "PORT" := VInt64 9090 ]} |} !! "PORT"
          = Some (VInt64 9090)) as Hlook.
  { reflexivity. }
  exact (proj2 (proj1 (typed_getters_exclusive
                         {| values := {[ "PORT" := VInt64 9090 ]} |} "PORT")
                  (VInt64 9090) Hlook)).
Defined.

Lemma parseValue_trimmed_witness :
  TrimSpace " 9090 " = TrimSpace "9090" /\ KindInteger <> KindString
  /\ parseValue "PORT" KindInteger " 9090 " = inl (VInt64 9090).
Proof.
  assert (TrimSpace " 9090 " = TrimSpace "9090") as Ht by reflexivity.
  assert (KindInteger <> KindString) as Hk by discriminate.
  split; [exact Ht|]. split; [exact Hk|].
  apply (proj1 (parseValue_trimmed "PORT" KindInteger " 9090 " "9090" Ht Hk)
           (VInt64 9090)).
  reflexivity.
Defined.

Lemma ValidateMap_last_declaration_witness :
  exists x, evalField ∅ dupSecond = inl x
            /\ values {| values := {[ "A" := VString "y" ]} |} !! Key dupSecond
               = Some x.
Proof.
  assert (ValidateMap Background (New ([dupFirst] ++ dupSecond :: [])%list) ∅
          = (Some {| values := {[ "A" := VString "y" ]} |}, None)) as HV.
  { reflexivity. }
  apply (ValidateMap_last_declaration Background [dupFirst] [] dupSecond ∅ _ _ HV).
  intros g Hg. inversion Hg.
Defined.

End ConcreteFurther.
